(** * Feed the Kraken: the turn and phase engine

    A shallow embedding of [src/game/GameState.ts] and
    [src/game/TurnManager.ts].  The session aggregate [GameState] is a
    record; its [players] map (a JavaScript [Map], iterated in insertion
    order) is the list of its values in join order.  Methods that mutate
    [this] are functions from the state to the new state; a method that can
    raise a [TypeError] returns a [Completion], which keeps the state as it
    was mutated up to the throw.  [Math.random] is an explicit argument. *)

From Stdlib Require Import ZArith Lia.
From stdpp Require Import base tactics option list numbers strings gmap sets.

Open Scope Z_scope.

(** ** Data model *)

Inductive GameStatus := WAITING | IN_PROGRESS | COMPLETED.

Inductive GamePhase :=
  LOBBY | NIGHT | NAVIGATION_SELECTION | MUTINY | NAVIGATION | VOTING | FEED_KRAKEN.

Inductive PlayerRole := SAILOR | PIRATE | CULT_LEADER | CULTIST.

(** [WinnerType] is [option Winner]: the source's [null] is [None]. *)
Inductive Winner := SAILORS | PIRATES | CULT.

#[global] Instance GameStatus_eq_dec : EqDecision GameStatus.
Proof. solve_decision. Defined.
#[global] Instance GamePhase_eq_dec : EqDecision GamePhase.
Proof. solve_decision. Defined.
#[global] Instance PlayerRole_eq_dec : EqDecision PlayerRole.
Proof. solve_decision. Defined.
#[global] Instance Winner_eq_dec : EqDecision Winner.
Proof. solve_decision. Defined.

Record Player := mkPlayer {
  userId : string;
  username : string;
  role : option PlayerRole;
  isAlive : bool;
  guns : Z;
  characterCard : option string;
  characterUsed : bool
}.

Record WinCondition := mkWinCondition {
  winner : option Winner;
  reason : option string
}.

Record Position := mkPosition { x : Z; y : Z }.

Record GameState := mkGameState {
  channelId : string;
  hostId : string;
  players : list Player;
  status : GameStatus;
  currentTurn : Z;
  currentPhase : GamePhase;
  captain : option string;
  lieutenant : option string;
  navigator : option string;
  shipPosition : Position;
  cultLeader : option string
}.

(** A JavaScript call either returns or throws; the receiver keeps the
    mutations made before the throw. *)
Inductive Completion (S : Type) :=
| Normal (s : S)
| Thrown (s : S).
Arguments Normal {S} s.
Arguments Thrown {S} s.

Definition stateOf {S : Type} (c : Completion S) : S :=
  match c with Normal s => s | Thrown s => s end.

Definition returns {S : Type} (c : Completion S) : bool :=
  match c with Normal _ => true | Thrown _ => false end.

(** Field assignments. *)
Definition set_isAlive (b : bool) (p : Player) : Player :=
  mkPlayer (userId p) (username p) (role p) b (guns p)
           (characterCard p) (characterUsed p).

Definition set_role (r : PlayerRole) (p : Player) : Player :=
  mkPlayer (userId p) (username p) (Some r) (isAlive p) (guns p)
           (characterCard p) (characterUsed p).

Definition set_players (ps : list Player) (g : GameState) : GameState :=
  mkGameState (channelId g) (hostId g) ps (status g) (currentTurn g)
              (currentPhase g) (captain g) (lieutenant g) (navigator g)
              (shipPosition g) (cultLeader g).

Definition set_status (s : GameStatus) (g : GameState) : GameState :=
  mkGameState (channelId g) (hostId g) (players g) s (currentTurn g)
              (currentPhase g) (captain g) (lieutenant g) (navigator g)
              (shipPosition g) (cultLeader g).

Definition set_currentTurn (t : Z) (g : GameState) : GameState :=
  mkGameState (channelId g) (hostId g) (players g) (status g) t
              (currentPhase g) (captain g) (lieutenant g) (navigator g)
              (shipPosition g) (cultLeader g).

Definition set_currentPhase (ph : GamePhase) (g : GameState) : GameState :=
  mkGameState (channelId g) (hostId g) (players g) (status g) (currentTurn g)
              ph (captain g) (lieutenant g) (navigator g)
              (shipPosition g) (cultLeader g).

Definition set_captain (c : option string) (g : GameState) : GameState :=
  mkGameState (channelId g) (hostId g) (players g) (status g) (currentTurn g)
              (currentPhase g) c (lieutenant g) (navigator g)
              (shipPosition g) (cultLeader g).

Definition set_shipPosition (pos : Position) (g : GameState) : GameState :=
  mkGameState (channelId g) (hostId g) (players g) (status g) (currentTurn g)
              (currentPhase g) (captain g) (lieutenant g) (navigator g)
              pos (cultLeader g).

Definition set_cultLeader (c : option string) (g : GameState) : GameState :=
  mkGameState (channelId g) (hostId g) (players g) (status g) (currentTurn g)
              (currentPhase g) (captain g) (lieutenant g) (navigator g)
              (shipPosition g) c.

(** ** GameState *)

Module GameState.

(** [new GameState(channelId, hostId)]; [createdAt] is a wall-clock stamp
    that no method reads and is left out. *)
Definition new (channel host : string) : GameState :=
  mkGameState channel host [] WAITING 0 LOBBY None None None (mkPosition 0 0) None.

Definition getPlayer (g : GameState) (u : string) : option Player :=
  snd <$> list_find (λ p, userId p = u) (players g).

Definition has (g : GameState) (u : string) : bool :=
  bool_decide (is_Some (getPlayer g u)).

Definition getAllPlayers (g : GameState) : list Player := players g.

Definition getAlivePlayers (g : GameState) : list Player :=
  filter (λ p, isAlive p = true) (getAllPlayers g).

Definition getPlayerCount (g : GameState) : nat := length (players g).

Definition isHost (g : GameState) (u : string) : bool :=
  bool_decide (hostId g = u).

(** [addPlayer] returns the [success] flag together with the session. *)
Definition addPlayer (u name : string) (g : GameState) : bool * GameState :=
  if has g u then (false, g)
  else if bool_decide (status g ≠ WAITING) then (false, g)
  else (true, set_players (players g ++ [mkPlayer u name None true 3 None false]) g).

Definition canStart (g : GameState) : bool :=
  bool_decide (5 ≤ length (players g))%nat && bool_decide (status g = WAITING).

(** [Array.prototype.findIndex]: the first index whose element satisfies
    the predicate, or -1. *)
Definition findIndex {A} (P : A → Prop) `{∀ a, Decision (P a)} (l : list A) : Z :=
  match list_find P l with
  | Some (i, _) => Z.of_nat i
  | None => -1
  end.

(** [rotateCaptain].  With no player alive [(currentIndex + 1) % 0] is
    [NaN], [alivePlayers[NaN]] is [undefined] and reading [.userId] from it
    throws. *)
Definition rotateCaptain (g : GameState) : Completion GameState :=
  let alivePlayers := getAlivePlayers g in
  let currentIndex := findIndex (λ p, Some (userId p) = captain g) alivePlayers in
  if decide (length alivePlayers = 0%nat) then Thrown g
  else
    let nextIndex := Z.rem (currentIndex + 1) (Z.of_nat (length alivePlayers)) in
    match alivePlayers !! Z.to_nat nextIndex with
    | Some p => Normal (set_captain (Some (userId p)) g)
    | None => Thrown g
    end.

Definition setNavigationTeam (lieutenantId navigatorId : string) (g : GameState)
  : GameState :=
  mkGameState (channelId g) (hostId g) (players g) (status g) (currentTurn g)
              (currentPhase g) (captain g) (Some lieutenantId) (Some navigatorId)
              (shipPosition g) (cultLeader g).

(** [player.isAlive = false] on the object that [players.get(userId)]
    returns: the first entry of the map with that key, updated in place. *)
Fixpoint markDead (u : string) (ps : list Player) : list Player :=
  match ps with
  | [] => []
  | p :: ps' =>
      if decide (userId p = u) then set_isAlive false p :: ps'
      else p :: markDead u ps'
  end.

Definition eliminatePlayer (u : string) (g : GameState) : Completion GameState :=
  match getPlayer g u with
  | Some _ =>
      let g1 := set_players (markDead u (players g)) g in
      if decide (captain g1 = Some u) then rotateCaptain g1 else Normal g1
  | None => Normal g
  end.

Definition checkWinCondition (g : GameState) : WinCondition :=
  if (10 <=? x (shipPosition g)) && (5 <=? y (shipPosition g)) then
    mkWinCondition (Some SAILORS) (Some "The ship reached Bluewater Bay!"%string)
  else if (10 <=? x (shipPosition g)) && (y (shipPosition g) <=? -5) then
    mkWinCondition (Some PIRATES) (Some "The ship reached Crimson Cove!"%string)
  else if 10 <=? y (shipPosition g) then
    mkWinCondition (Some CULT) (Some "The ship was fed to the Kraken!"%string)
  else mkWinCondition None None.

Definition moveShip (dx dy : Z) (g : GameState) : GameState :=
  set_shipPosition
    (mkPosition (x (shipPosition g) + dx) (y (shipPosition g) + dy)) g.

Definition phaseOrder : list GamePhase :=
  [NAVIGATION_SELECTION; MUTINY; NAVIGATION; VOTING].

(** [Array.prototype.indexOf]. *)
Definition indexOf (ph : GamePhase) (l : list GamePhase) : Z :=
  findIndex (λ q, q = ph) l.

Definition nextPhase (g : GameState) : Completion GameState :=
  let currentIndex := indexOf (currentPhase g) phaseOrder in
  if bool_decide (currentIndex = -1)
     || bool_decide (currentIndex = Z.of_nat (length phaseOrder) - 1)
  then
    rotateCaptain
      (set_currentPhase NAVIGATION_SELECTION
         (set_currentTurn (currentTurn g + 1) g))
  else
    match phaseOrder !! Z.to_nat (currentIndex + 1) with
    | Some ph => Normal (set_currentPhase ph g)
    | None => Normal g
    end.

End GameState.

(** ** Role assignment and captain selection *)

Module Roles.
Import GameState.

(** [[a[i], a[j]] = [a[j], a[i]]] *)
Definition swap {A} (i j : nat) (a : list A) : list A :=
  match a !! i, a !! j with
  | Some ai, Some aj => <[j := ai]> (<[i := aj]> a)
  | _, _ => a
  end.

(** The Fisher-Yates loop [for (i = length - 1; i > 0; i--)], with
    [Math.floor(Math.random() * (i + 1))] drawn as [rand i mod (i + 1)]:
    [shuffleFrom rand i a] runs the iterations [i], [i - 1], ..., [1]. *)
Fixpoint shuffleFrom {A} (rand : nat → nat) (i : nat) (a : list A) : list A :=
  match i with
  | O => a
  | S i' => shuffleFrom rand i' (swap i (rand i mod (i + 1))%nat a)
  end.

Definition shuffle {A} (rand : nat → nat) (a : list A) : list A :=
  shuffleFrom rand (length a - 1)%nat a.

(** The role table: (pirateCount, cultLeaderCount, cultistCount). *)
Definition roleCounts (playerCount : nat) : nat * nat * nat :=
  if decide (playerCount = 5%nat) then (2, 1, 0)%nat
  else if decide (playerCount = 6%nat) then (2, 1, 0)%nat
  else if decide (playerCount = 7%nat) then (2, 1, 1)%nat
  else if decide (playerCount = 8%nat) then (3, 1, 1)%nat
  else (3, 1, 2)%nat.

(** The elements of [playerArray] are the player objects of the map, so an
    assignment through the array is seen through the map: an element is the
    position of its object among [players.values()]. *)
Definition assignRoleTo (r : PlayerRole) (ref : nat) (g : GameState) : GameState :=
  set_players (alter (set_role r) ref (players g)) g.

Definition assignCultLeaderTo (ref : nat) (g : GameState) : GameState :=
  let g1 := assignRoleTo CULT_LEADER ref g in
  set_cultLeader (userId <$> players g1 !! ref) g1.

(** [for (let i = 0; i < count; i++) { body(playerArray[index]); index++ }];
    [playerArray[index]] past the end is [undefined] and the assignment to
    its [.role] throws. *)
Fixpoint assignLoop (count : nat) (body : nat → GameState → GameState)
    (playerArray : list nat) (st : nat * GameState) : Completion (nat * GameState) :=
  match count with
  | O => Normal st
  | S count' =>
      match playerArray !! st.1 with
      | Some ref => assignLoop count' body playerArray (S st.1, body ref st.2)
      | None => Thrown st
      end
  end.

Definition andThen {S} (c : Completion S) (k : S → Completion S) : Completion S :=
  match c with
  | Normal s => k s
  | Thrown s => Thrown s
  end.

Definition assignRoles (rand : nat → nat) (g : GameState) : Completion GameState :=
  let playerCount := length (players g) in
  let playerArray := shuffle rand (seq 0 (length (players g))) in
  let '(pirateCount, cultLeaderCount, cultistCount) := roleCounts playerCount in
  let result :=
    andThen (assignLoop cultLeaderCount assignCultLeaderTo playerArray (0%nat, g)) (λ st,
    andThen (assignLoop pirateCount (assignRoleTo PIRATE) playerArray st) (λ st,
    andThen (assignLoop cultistCount (assignRoleTo CULTIST) playerArray st) (λ st,
      (* while (index < playerArray.length) *)
      assignLoop (length playerArray - st.1) (assignRoleTo SAILOR) playerArray st))) in
  match result with
  | Normal st => Normal st.2
  | Thrown st => Thrown st.2
  end.

(** [Math.floor(Math.random() * alivePlayers.length)] is [r mod length]. *)
Definition assignCaptain (r : nat) (g : GameState) : GameState :=
  let alivePlayers := getAlivePlayers g in
  if decide (0 < length alivePlayers)%nat then
    match alivePlayers !! (r mod length alivePlayers)%nat with
    | Some p => set_captain (Some (userId p)) g
    | None => g
    end
  else g.

Definition start (rand : nat → nat) (r : nat) (g : GameState) : Completion GameState :=
  if negb (canStart g) then Thrown g
  else
    match assignRoles rand (set_currentPhase NIGHT (set_status IN_PROGRESS g)) with
    | Normal g1 => Normal (assignCaptain r g1)
    | Thrown g1 => Thrown g1
    end.

(** Modelled from the spec: [electCaptainByGuns] is called by
    [resolveMutiny] and is not among the sources.  Section 4.2: among the
    eligible crew (alive, excluding the previous captain) find the maximum
    gun count, break ties at random among the players at that maximum,
    assign the new captain.  The draw [r] picks the tied player of index
    [r mod (number of tied players)].  With no eligible crew, about which
    the spec is silent, the captain is left as it is. *)
Definition eligibleCrew (g : GameState) : list Player :=
  filter (λ p, Some (userId p) ≠ captain g) (getAlivePlayers g).

Definition maxGuns (p0 : Player) (rest : list Player) : Z :=
  foldr (λ p m, Z.max (guns p) m) (guns p0) rest.

Definition electCaptainByGuns (r : nat) (g : GameState) : GameState :=
  match eligibleCrew g with
  | [] => g
  | p0 :: rest =>
      let top := filter (λ p, guns p = maxGuns p0 rest) (p0 :: rest) in
      match top !! (r mod length top)%nat with
      | Some p => set_captain (Some (userId p)) g
      | None => g
      end
  end.

End Roles.

(** ** TurnManager *)

Record NavigationMovement := mkMovement { dx : Z; dy : Z }.

#[global] Instance NavigationMovement_eq_dec : EqDecision NavigationMovement.
Proof. solve_decision. Defined.

(** The button labels carry an arrow glyph after the name, left out here. *)
Record NavigationDirection := mkDirection {
  name : string;
  direction_dx : Z;
  direction_dy : Z
}.

Inductive Proposer := AsCaptain | AsLieutenant.

(** What the controller sends out through the messaging client, by kind;
    the wording of the texts is not modelled. *)
Inductive Message :=
| NavigationSelectionNotice (turn : Z) (cap : option string)
| SelectTeamForm (options : list string)
| MutinyNotice (cap : option string) (eligible : nat)
| MutinyResults (totalGunsUsed totalCrewGuns mutinyThreshold : Z)
    (nonVoters : nat) (mutinySucceeded : bool)
    (previousCaptain newCaptain : option string)
| NavigationNotice
| NavigationChoiceCards (role : Proposer) (buttons : list NavigationMovement)
| NavigatorFinalChoice (buttons : list (Proposer * NavigationMovement))
| WaitingForNavigator
| DiscussionNotice
| GameOver (w : Winner)
| OnlyCaptainConfirms
| SelectBothFirst
| MustBeDifferentPeople
| TeamSelected (lieutenantId navigatorId : string)
| AlreadyMadeChoice
| OnlyCaptainChooses
| OnlyLieutenantChooses
| OnlyNavigatorChooses
| ChoiceRecorded (m : NavigationMovement)
| NavigatorChose (u : string) (m : NavigationMovement)
| CaptainCannotVote
| VoteRecorded (gunsCount : Z)
| VoteCount (votes eligible : nat).

Inductive Timer := MutinyTimeout | EndTurnTimeout.

Inductive Effect :=
| postMessage (channel : option string) (m : Message)
| postEphemeral (channel : string) (user : option string) (m : Message)
| viewsOpen (user : string) (min_value max_value : Z)
| setTimeout (t : Timer) (ms : Z)
| clearTimeout (t : Timer).

(** The interactive events the controller receives.  For the three
    navigation actions the handler looks at the prefix of [action_id] and at
    the [dx], [dy] of the JSON [value]. *)
Inductive Action :=
| select_lieutenant (value : string)
| select_navigator (value : string)
| confirm_navigation_team
| cast_mutiny_vote
| end_turn
| nav_choice_captain (payload : NavigationMovement)
| nav_choice_lieutenant (payload : NavigationMovement)
| navigate_final (payload : NavigationMovement)
| other_action.

(** A submitted view: its [callback_id] and the [parseInt] of the
    [guns_count] input, a number input without decimals, hence an integer. *)
Record View := mkView { callback_id : string; guns_count : Z }.

(** The three random draws one event may consume. *)
Record Dice := mkDice { election : nat; captainCards : nat; lieutenantCards : nat }.

Record TurnManager := mkTurnManager {
  (* the manager's own [channelId] *)
  managerChannelId : string;
  game : GameState;
  mutinyVotes : gmap string Z;
  selectedLieutenant : option string;
  selectedNavigator : option string;
  mutinyEligibleVoters : gset string;
  (* whether a timer handle is stored *)
  mutinyTimeoutId : bool;
  captainNavigationChoice : option NavigationMovement;
  lieutenantNavigationChoice : option NavigationMovement;
  captainChoiceLocked : bool;
  lieutenantChoiceLocked : bool;
  navigatorChoiceLocked : bool;
  lastMutinySucceeded : bool
}.

Definition set_game (g : GameState) (tm : TurnManager) : TurnManager :=
  mkTurnManager (managerChannelId tm) g (mutinyVotes tm) (selectedLieutenant tm) (selectedNavigator tm)
    (mutinyEligibleVoters tm) (mutinyTimeoutId tm) (captainNavigationChoice tm)
    (lieutenantNavigationChoice tm) (captainChoiceLocked tm)
    (lieutenantChoiceLocked tm) (navigatorChoiceLocked tm) (lastMutinySucceeded tm).

Definition set_mutinyVotes (v : gmap string Z) (tm : TurnManager) : TurnManager :=
  mkTurnManager (managerChannelId tm) (game tm) v (selectedLieutenant tm) (selectedNavigator tm)
    (mutinyEligibleVoters tm) (mutinyTimeoutId tm) (captainNavigationChoice tm)
    (lieutenantNavigationChoice tm) (captainChoiceLocked tm)
    (lieutenantChoiceLocked tm) (navigatorChoiceLocked tm) (lastMutinySucceeded tm).

Definition set_selectedLieutenant (s : option string) (tm : TurnManager) : TurnManager :=
  mkTurnManager (managerChannelId tm) (game tm) (mutinyVotes tm) s (selectedNavigator tm)
    (mutinyEligibleVoters tm) (mutinyTimeoutId tm) (captainNavigationChoice tm)
    (lieutenantNavigationChoice tm) (captainChoiceLocked tm)
    (lieutenantChoiceLocked tm) (navigatorChoiceLocked tm) (lastMutinySucceeded tm).

Definition set_selectedNavigator (s : option string) (tm : TurnManager) : TurnManager :=
  mkTurnManager (managerChannelId tm) (game tm) (mutinyVotes tm) (selectedLieutenant tm) s
    (mutinyEligibleVoters tm) (mutinyTimeoutId tm) (captainNavigationChoice tm)
    (lieutenantNavigationChoice tm) (captainChoiceLocked tm)
    (lieutenantChoiceLocked tm) (navigatorChoiceLocked tm) (lastMutinySucceeded tm).

Definition set_mutinyEligibleVoters (s : gset string) (tm : TurnManager) : TurnManager :=
  mkTurnManager (managerChannelId tm) (game tm) (mutinyVotes tm) (selectedLieutenant tm) (selectedNavigator tm)
    s (mutinyTimeoutId tm) (captainNavigationChoice tm)
    (lieutenantNavigationChoice tm) (captainChoiceLocked tm)
    (lieutenantChoiceLocked tm) (navigatorChoiceLocked tm) (lastMutinySucceeded tm).

Definition set_mutinyTimeoutId (b : bool) (tm : TurnManager) : TurnManager :=
  mkTurnManager (managerChannelId tm) (game tm) (mutinyVotes tm) (selectedLieutenant tm) (selectedNavigator tm)
    (mutinyEligibleVoters tm) b (captainNavigationChoice tm)
    (lieutenantNavigationChoice tm) (captainChoiceLocked tm)
    (lieutenantChoiceLocked tm) (navigatorChoiceLocked tm) (lastMutinySucceeded tm).

Definition set_captainChoice (c : option NavigationMovement) (locked : bool)
    (tm : TurnManager) : TurnManager :=
  mkTurnManager (managerChannelId tm) (game tm) (mutinyVotes tm) (selectedLieutenant tm) (selectedNavigator tm)
    (mutinyEligibleVoters tm) (mutinyTimeoutId tm) c
    (lieutenantNavigationChoice tm) locked
    (lieutenantChoiceLocked tm) (navigatorChoiceLocked tm) (lastMutinySucceeded tm).

Definition set_lieutenantChoice (c : option NavigationMovement) (locked : bool)
    (tm : TurnManager) : TurnManager :=
  mkTurnManager (managerChannelId tm) (game tm) (mutinyVotes tm) (selectedLieutenant tm) (selectedNavigator tm)
    (mutinyEligibleVoters tm) (mutinyTimeoutId tm) (captainNavigationChoice tm)
    c (captainChoiceLocked tm)
    locked (navigatorChoiceLocked tm) (lastMutinySucceeded tm).

Definition set_navigatorChoiceLocked (b : bool) (tm : TurnManager) : TurnManager :=
  mkTurnManager (managerChannelId tm) (game tm) (mutinyVotes tm) (selectedLieutenant tm) (selectedNavigator tm)
    (mutinyEligibleVoters tm) (mutinyTimeoutId tm) (captainNavigationChoice tm)
    (lieutenantNavigationChoice tm) (captainChoiceLocked tm)
    (lieutenantChoiceLocked tm) b (lastMutinySucceeded tm).

Definition set_lastMutinySucceeded (b : bool) (tm : TurnManager) : TurnManager :=
  mkTurnManager (managerChannelId tm) (game tm) (mutinyVotes tm) (selectedLieutenant tm) (selectedNavigator tm)
    (mutinyEligibleVoters tm) (mutinyTimeoutId tm) (captainNavigationChoice tm)
    (lieutenantNavigationChoice tm) (captainChoiceLocked tm)
    (lieutenantChoiceLocked tm) (navigatorChoiceLocked tm) b.

(** *** Methods as state transformers with an effect trace *)

Definition Method := TurnManager → Completion TurnManager * list Effect.

Definition skip : Method := λ tm, (Normal tm, []).

Definition emit (e : Effect) : Method := λ tm, (Normal tm, [e]).

Definition update (f : TurnManager → TurnManager) : Method :=
  λ tm, (Normal (f tm), []).

(** A [GameState] method called on [this.game]. *)
Definition onGame (f : GameState → Completion GameState) : Method :=
  λ tm, match f (game tm) with
        | Normal g => (Normal (set_game g tm), [])
        | Thrown g => (Thrown (set_game g tm), [])
        end.

Definition andThenM (m1 m2 : Method) : Method :=
  λ tm, match m1 tm with
        | (Normal tm1, e1) => let '(c, e2) := m2 tm1 in (c, e1 ++ e2)
        | (Thrown tm1, e1) => (Thrown tm1, e1)
        end.

(** A statement that reads [this] before it runs. *)
Definition reading (k : TurnManager → Method) : Method := λ tm, k tm tm.

Declare Scope method_scope.
Delimit Scope method_scope with method.
Bind Scope method_scope with Method.
Notation "m1 ;; m2" := (andThenM m1 m2)
  (at level 100, m2 at level 200, right associativity) : method_scope.

Definition after (m : Method) (tm : TurnManager) : TurnManager := stateOf (fst (m tm)).
Definition sent (m : Method) (tm : TurnManager) : list Effect := snd (m tm).

(** JavaScript truthiness of a [string | null | undefined]: neither absent
    nor empty. *)
Definition truthy (s : option string) : bool :=
  match s with
  | Some s => negb (bool_decide (s = EmptyString))
  | None => false
  end.

Module TurnManager.
Import GameState Roles.
Local Open Scope method_scope.

(** [new TurnManager(gameState, client, channelId)]; the unused
    [navigationCards] array is left out. *)
Definition new (g : GameState) (channel : string) : TurnManager :=
  mkTurnManager channel g ∅ None None ∅ false None None false false false false.

Definition onGameState (f : GameState → GameState) : Method :=
  update (λ tm, set_game (f (game tm)) tm).

Definition toChannel (m : Message) : Method :=
  reading (λ tm, emit (postMessage (Some (managerChannelId tm)) m)).

(** The crew a captain can pick from and that can vote:
    [getAlivePlayers().filter(p => p.userId !== this.game.captain)]. *)
Definition crewExceptCaptain (g : GameState) : list Player :=
  filter (λ p, Some (userId p) ≠ captain g) (getAlivePlayers g).

Definition navigationSelectionPhase : Method :=
  reading (λ tm,
    let alivePlayers := crewExceptCaptain (game tm) in
    let playerOptions := userId <$> alivePlayers in
    toChannel (NavigationSelectionNotice (currentTurn (game tm)) (captain (game tm))) ;;
    emit (postEphemeral (managerChannelId tm) (captain (game tm))
            (SelectTeamForm playerOptions))).

Definition mutinyPhase : Method :=
  update (set_mutinyVotes ∅) ;;
  update (set_mutinyEligibleVoters ∅) ;;
  reading (λ tm, if mutinyTimeoutId tm then emit (clearTimeout MutinyTimeout) else skip) ;;
  reading (λ tm,
    let alivePlayers := crewExceptCaptain (game tm) in
    (* alivePlayers.forEach(p => this.mutinyEligibleVoters.add(p.userId)) *)
    update (set_mutinyEligibleVoters
              (foldl (λ voters p, {[userId p]} ∪ voters)
                     (mutinyEligibleVoters tm) alivePlayers))) ;;
  reading (λ tm,
    toChannel (MutinyNotice (captain (game tm)) (size (mutinyEligibleVoters tm)))) ;;
  emit (setTimeout MutinyTimeout 60000) ;;
  update (set_mutinyTimeoutId true).

Definition allDirections : list NavigationDirection :=
  [ mkDirection "North" 0 1; mkDirection "South" 0 (-1);
    mkDirection "East" 1 0; mkDirection "West" (-1) 0 ].

(** [[...l].sort(() => Math.random() - 0.5)]: a sort under a comparator
    that answers at random returns the elements in some order; the draw [r]
    picks which. *)
Definition randomSort {A} (r : nat) (l : list A) : list A :=
  default l (permutations l !! (r mod length (permutations l))%nat).

Definition movementOf (d : NavigationDirection) : NavigationMovement :=
  mkMovement (direction_dx d) (direction_dy d).

(** The two buttons of one proposer's card. *)
Definition offeredDirections (r : nat) : list NavigationDirection :=
  take 2 (randomSort r allDirections).

Definition sendNavigationChoiceCards (r : nat) (user : option string)
    (role : Proposer) : Method :=
  let directions := offeredDirections r in
  let buttons := movementOf <$> directions in
  emit (postMessage user (NavigationChoiceCards role buttons)).

Definition resetNavigation (tm : TurnManager) : TurnManager :=
  set_navigatorChoiceLocked false
    (set_lieutenantChoice None false (set_captainChoice None false tm)).

Definition navigationPhase (d : Dice) : Method :=
  update resetNavigation ;;
  toChannel NavigationNotice ;;
  reading (λ tm, sendNavigationChoiceCards (captainCards d) (captain (game tm)) AsCaptain) ;;
  reading (λ tm,
    sendNavigationChoiceCards (lieutenantCards d) (lieutenant (game tm)) AsLieutenant).

(** The options forwarded to the navigator. *)
Definition navigatorOptions (tm : TurnManager) : list (Proposer * NavigationMovement) :=
  match captainNavigationChoice tm, lieutenantNavigationChoice tm with
  | Some c, Some l => [(AsCaptain, c); (AsLieutenant, l)]
  | _, _ => []
  end.

Definition sendNavigatorFinalChoice : Method :=
  reading (λ tm,
    match captainNavigationChoice tm, lieutenantNavigationChoice tm with
    | Some _, Some _ =>
        emit (postMessage (navigator (game tm)) (NavigatorFinalChoice (navigatorOptions tm))) ;;
        toChannel WaitingForNavigator
    | _, _ => skip
    end).

Definition votingPhase : Method :=
  toChannel DiscussionNotice ;;
  emit (setTimeout EndTurnTimeout 30000).

Definition executePhase (d : Dice) : Method :=
  reading (λ tm,
    match currentPhase (game tm) with
    | NAVIGATION_SELECTION => navigationSelectionPhase
    | MUTINY => mutinyPhase
    | NAVIGATION => navigationPhase d
    | VOTING => votingPhase
    | _ => skip
    end).

Definition startTurn (d : Dice) : Method :=
  reading (λ tm,
    let wasVotingPhase := bool_decide (currentPhase (game tm) = VOTING) in
    onGame nextPhase ;;
    reading (λ tm,
      if wasVotingPhase && truthy (lieutenant (game tm)) && truthy (navigator (game tm))
         && bool_decide (currentPhase (game tm) = NAVIGATION_SELECTION)
      then onGameState (set_currentPhase MUTINY)
      else skip) ;;
    executePhase d).

(** *** The mutiny tally *)

Definition totalGunsUsed (tm : TurnManager) : Z :=
  map_fold (λ _ guns total, total + guns) 0 (mutinyVotes tm).

Definition nonVoters (tm : TurnManager) : list string :=
  filter (λ id, mutinyVotes tm !! id = None) (elements (mutinyEligibleVoters tm)).

(** [this.game.getPlayer(id)?.guns || 0] *)
Definition gunsOf (g : GameState) (id : string) : Z :=
  match getPlayer g id with
  | Some p => guns p
  | None => 0
  end.

Definition totalCrewGuns (tm : TurnManager) : Z :=
  foldl (λ sum guns, sum + guns) 0
        (gunsOf (game tm) <$> elements (mutinyEligibleVoters tm)).

(** [Math.floor(totalCrewGuns / 2) + 1] *)
Definition mutinyThreshold (tm : TurnManager) : Z := totalCrewGuns tm / 2 + 1.

Definition mutinySucceeded (tm : TurnManager) : bool :=
  bool_decide (totalGunsUsed tm >= mutinyThreshold tm).

Definition resolveMutiny (d : Dice) : Method :=
  reading (λ tm,
    if mutinyTimeoutId tm
    then emit (clearTimeout MutinyTimeout) ;; update (set_mutinyTimeoutId false)
    else skip) ;;
  reading (λ tm,
    let previousCaptain := captain (game tm) in
    (if mutinySucceeded tm then
       onGameState (electCaptainByGuns (election d)) ;;
       update (set_lastMutinySucceeded true) ;;
       onGameState (set_currentPhase NAVIGATION_SELECTION)
     else
       onGameState (set_currentPhase NAVIGATION) ;;
       update (set_lastMutinySucceeded false)) ;;
    reading (λ tm',
      toChannel (MutinyResults (totalGunsUsed tm) (totalCrewGuns tm) (mutinyThreshold tm)
                   (length (nonVoters tm)) (mutinySucceeded tm)
                   previousCaptain (captain (game tm'))))) ;;
  executePhase d.

Definition endTurn (d : Dice) : Method :=
  reading (λ tm,
    match winner (checkWinCondition (game tm)) with
    | Some w => toChannel (GameOver w)
    | None => startTurn d
    end).

Definition openMutinyVoteModal (user : string) : Method :=
  reading (λ tm,
    match getPlayer (game tm) user with
    | None => skip
    | Some player =>
        if negb (isAlive player) then skip
        else if decide (Some user = captain (game tm)) then
          emit (postEphemeral (managerChannelId tm) (Some user) CaptainCannotVote)
        else emit (viewsOpen user 0 (guns player))
    end).

Definition handleAction (d : Dice) (action : Action) (user : string) : Method :=
  match action with
  | select_lieutenant value => update (set_selectedLieutenant (Some value))
  | select_navigator value => update (set_selectedNavigator (Some value))
  | confirm_navigation_team =>
      reading (λ tm,
        if decide (Some user ≠ captain (game tm)) then
          emit (postEphemeral (managerChannelId tm) (Some user) OnlyCaptainConfirms)
        else
          match selectedLieutenant tm, selectedNavigator tm with
          | Some l, Some n =>
              if negb (truthy (Some l)) || negb (truthy (Some n)) then
                emit (postEphemeral (managerChannelId tm) (Some user) SelectBothFirst)
              else if decide (l = n) then
                emit (postEphemeral (managerChannelId tm) (Some user) MustBeDifferentPeople)
              else
                onGameState (setNavigationTeam l n) ;;
                toChannel (TeamSelected l n) ;;
                onGameState (set_currentPhase MUTINY) ;;
                reading (λ tm,
                  if lastMutinySucceeded tm then update (set_lastMutinySucceeded false)
                  else skip) ;;
                executePhase d
          | _, _ =>
              emit (postEphemeral (managerChannelId tm) (Some user) SelectBothFirst)
          end)
  | cast_mutiny_vote => openMutinyVoteModal user
  | end_turn => endTurn d
  | nav_choice_captain payload =>
      reading (λ tm,
        if captainChoiceLocked tm then
          emit (postEphemeral user (Some user) AlreadyMadeChoice)
        else if decide (Some user ≠ captain (game tm)) then
          emit (postEphemeral (managerChannelId tm) (Some user) OnlyCaptainChooses)
        else
          update (set_captainChoice (Some (mkMovement (dx payload) (dy payload))) true) ;;
          emit (postEphemeral user (Some user) (ChoiceRecorded payload)) ;;
          reading (λ tm,
            match lieutenantNavigationChoice tm with
            | Some _ => sendNavigatorFinalChoice
            | None => skip
            end))
  | nav_choice_lieutenant payload =>
      reading (λ tm,
        if lieutenantChoiceLocked tm then
          emit (postEphemeral user (Some user) AlreadyMadeChoice)
        else if decide (Some user ≠ lieutenant (game tm)) then
          emit (postEphemeral (managerChannelId tm) (Some user) OnlyLieutenantChooses)
        else
          update (set_lieutenantChoice (Some (mkMovement (dx payload) (dy payload))) true) ;;
          emit (postEphemeral user (Some user) (ChoiceRecorded payload)) ;;
          reading (λ tm,
            match captainNavigationChoice tm with
            | Some _ => sendNavigatorFinalChoice
            | None => skip
            end))
  | navigate_final payload =>
      reading (λ tm,
        if navigatorChoiceLocked tm then
          emit (postEphemeral user (Some user) AlreadyMadeChoice)
        else if decide (Some user ≠ navigator (game tm)) then
          emit (postEphemeral (managerChannelId tm) (Some user) OnlyNavigatorChooses)
        else
          let movement := mkMovement (dx payload) (dy payload) in
          update (set_navigatorChoiceLocked true) ;;
          onGameState (moveShip (dx movement) (dy movement)) ;;
          toChannel (NavigatorChose user movement) ;;
          onGameState (set_currentPhase VOTING) ;;
          executePhase d)
  | other_action => skip
  end.

Definition handleViewSubmission (d : Dice) (view : View) (user : string) : Method :=
  if decide (callback_id view = "mutiny_vote_modal"%string) then
    let gunsCount := guns_count view in
    reading (λ tm, update (set_mutinyVotes (<[user := gunsCount]> (mutinyVotes tm)))) ;;
    reading (λ tm, emit (postEphemeral (managerChannelId tm) (Some user) (VoteRecorded gunsCount))) ;;
    reading (λ tm,
      if decide (size (mutinyVotes tm) = size (mutinyEligibleVoters tm))
      then resolveMutiny d
      else toChannel (VoteCount (size (mutinyVotes tm)) (size (mutinyEligibleVoters tm))))
  else skip.

End TurnManager.

(** ** Reference definitions, written from the rules of the game *)

Module Spec.

(** The players in join order starting just after [u] and wrapping around,
    [u] itself coming last. *)
Definition joinOrderAfter (u : string) (ps : list Player) : list Player :=
  match list_find (λ p, userId p = u) ps with
  | Some (i, _) => drop (S i) ps ++ take (S i) ps
  | None => ps
  end.

(** The next alive player after [u] in join order, wrapping. *)
Definition nextAliveAfter (u : string) (ps : list Player) : option string :=
  userId <$> head (filter (λ p, isAlive p = true) (joinOrderAfter u ps)).

(** The role line-up of the table for [p] players: one cult leader, then
    the pirates, the cultists and the sailors. *)
Definition pirates (p : nat) : nat := if decide (p < 8)%nat then 2 else 3.

Definition cultists (p : nat) : nat :=
  if decide (p < 7)%nat then 0 else if decide (p < 9)%nat then 1 else 2.

Definition countRole (r : PlayerRole) (ps : list Player) : nat :=
  length (filter (λ p, role p = Some r) ps).

(** The sum of the recorded vote submissions, one count per voter. *)
Definition submitted (votes : gmap string Z) : Z :=
  foldr Z.add 0 (map_to_list votes).*2.

(** The sum of the current gun counts of the eligible voters: the guns of
    the players whose identity is among the voters. *)
Definition crewGuns (ps : list Player) (voters : gset string) : Z :=
  foldr Z.add 0 (guns <$> filter (λ p, userId p ∈ voters) ps).

End Spec.

(** ** Test fixtures *)

Module Fixture.

Definition crew (u : string) (alive : bool) (g : Z) : Player :=
  mkPlayer u u None alive g None false.

(** Five players in join order A to E, all alive with three guns each. *)
Definition five : list Player :=
  [crew "A" true 3; crew "B" true 3; crew "C" true 3; crew "D" true 3; crew "E" true 3].

Definition session (ps : list Player) (ph : GamePhase) (cap : string) : GameState :=
  mkGameState "channel" "A" ps IN_PROGRESS 1 ph (Some cap) (Some "A") (Some "B")
              (mkPosition 0 0) None.

Definition dice : Dice := mkDice 0 0 0.

End Fixture.

(** ** Auxiliary definitions used in the statements *)

(** The four cardinal unit vectors. *)
Definition cardinals : list NavigationMovement :=
  [mkMovement 0 1; mkMovement 0 (-1); mkMovement 1 0; mkMovement (-1) 0].

(** Roles written through a list of (position, role) pairs, in order. *)
Definition setRoles (assigned : list (nat * PlayerRole)) (ps : list Player) : list Player :=
  foldl (λ ps a, alter (set_role a.2) a.1 ps) ps assigned.

(** The guns held by a list of players. *)
Definition gunsHeld (ps : list Player) : Z := foldr (λ p s, guns p + s) 0 ps.

(** The same dice with another draw for the election. *)
Definition withElection (r : nat) (d : Dice) : Dice :=
  mkDice r (captainCards d) (lieutenantCards d).

Module Scenario.
Import GameState Roles TurnManager.

(** A navigation round in which the captain "C" has proposed North and the
    lieutenant "A" East, both locked; "B" is the navigator. *)
Definition roundWithProposals : TurnManager :=
  let tm0 := after (navigationPhase Fixture.dice)
               (TurnManager.new (Fixture.session Fixture.five NAVIGATION "C") "channel") in
  let tm1 := after (handleAction Fixture.dice (nav_choice_captain (mkMovement 0 1)) "C") tm0 in
  after (handleAction Fixture.dice (nav_choice_lieutenant (mkMovement 1 0)) "A") tm1.

(** A mutiny round just entered, with "C" as captain. *)
Definition mutinyRound : TurnManager :=
  after mutinyPhase (TurnManager.new (Fixture.session Fixture.five MUTINY "C") "channel").

(** Captain "A" and three voters "B", "C", "D" with three guns each ("E"
    has been eliminated): the crew holds nine guns. *)
Definition nineGuns : TurnManager :=
  let ps := [ Fixture.crew "A" true 3; Fixture.crew "B" true 3; Fixture.crew "C" true 3;
              Fixture.crew "D" true 3; Fixture.crew "E" false 3 ] in
  after mutinyPhase (TurnManager.new (Fixture.session ps MUTINY "A") "channel").

Definition vote (u : string) (n : Z) (tm : TurnManager) : TurnManager :=
  after (handleViewSubmission Fixture.dice (mkView "mutiny_vote_modal" n) u) tm.

Definition act (a : Action) (u : string) (tm : TurnManager) : TurnManager :=
  after (handleAction Fixture.dice a u) tm.

(** A full turn: the captain "C" picks "A" and "B"; the four voters commit
    no gun; captain and lieutenant both propose North and the navigator
    commits it; the discussion ends.  The list holds the controller after
    the team is confirmed, after the votes, after the proposals, after the
    commit and after the end of the turn. *)
Definition fullTurn : list TurnManager :=
  let t0 := TurnManager.new (Fixture.session Fixture.five NAVIGATION_SELECTION "C") "channel" in
  let t1 := act confirm_navigation_team "C"
              (act (select_navigator "B") "C" (act (select_lieutenant "A") "C" t0)) in
  let t2 := vote "E" 0 (vote "D" 0 (vote "B" 0 (vote "A" 0 t1))) in
  let t3 := act (nav_choice_lieutenant (mkMovement 0 1)) "A"
              (act (nav_choice_captain (mkMovement 0 1)) "C" t2) in
  let t4 := act (navigate_final (mkMovement 0 1)) "B" t3 in
  let t5 := after (endTurn Fixture.dice) t4 in
  [t1; t2; t3; t4; t5].

(** The end of a discussion, with the navigation team of the fixture. *)
Definition discussion : TurnManager :=
  TurnManager.new (Fixture.session Fixture.five VOTING "C") "channel".

End Scenario.

(** ** GameManager

    The class [GameManager], which the source keeps in the same file as
    [GameState].  Its [async] methods are taken one call at a time: a call
    runs to its end before the next one starts. *)

(** The manager keeps two maps by channel, [games] and [turnManagers], and
    the turn manager of a channel holds the very [GameState] object that
    [games] holds for it.  One map of sessions stands for both: a channel has
    either a game alone or a turn manager together with its game. *)
Inductive Session :=
| Lobby (g : GameState)
| Running (tm : TurnManager).

Definition sessionGame (s : Session) : GameState :=
  match s with
  | Lobby g => g
  | Running tm => game tm
  end.

Definition sessionManager (s : Session) : option TurnManager :=
  match s with
  | Lobby _ => None
  | Running tm => Some tm
  end.

(** A mutation of the game object, seen through both maps. *)
Definition withGame (g : GameState) (s : Session) : Session :=
  match s with
  | Lobby _ => Lobby g
  | Running tm => Running (set_game g tm)
  end.

Record GameManager := mkGameManager { sessions : gmap string Session }.

(** The errors the manager throws, by kind. *)
Inductive ManagerError :=
| GameAlreadyInChannel
| NoGameFound
| OnlyHostCanStart
| NeedFivePlayers
| Uncaught.

(** A call of an [async] method resolves with a value or rejects. *)
Inductive Reply (A : Type) :=
| Resolved (a : A) (gm : GameManager)
| Rejected (e : ManagerError) (gm : GameManager).
Arguments Resolved {A} a gm.
Arguments Rejected {A} e gm.

Definition managerOf {A} (r : Reply A) : GameManager :=
  match r with
  | Resolved _ gm => gm
  | Rejected _ gm => gm
  end.

(** What a role message tells its reader: the role, and for a cultist the
    identity of the cult leader; and the roster sent to the pirates. *)
Inductive RoleNotice :=
| RoleMessage (r : option PlayerRole) (leader : option string)
| PirateRoster (pirates : list string).

Module GameManager.
Import GameState Roles.

Definition new : GameManager := mkGameManager ∅.

Definition games (gm : GameManager) : gmap string GameState :=
  sessionGame <$> sessions gm.

Definition turnManagers (gm : GameManager) : gmap string TurnManager :=
  omap sessionManager (sessions gm).

Definition store (channel : string) (s : Session) (gm : GameManager) : GameManager :=
  mkGameManager (<[channel := s]> (sessions gm)).

(** The host's display name.  [info] is the outcome of [client.users.info]:
    [None] when the call fails, else the [name] of the user if it has one;
    [result.user?.name || 'Unknown'] falls back on an absent or empty name. *)
Definition hostName (info : option (option string)) : string :=
  match info with
  | Some name => if truthy name then default "Unknown"%string name else "Unknown"%string
  | None => "Player"%string
  end.

Definition createGame (info : option (option string)) (channel host : string)
    (gm : GameManager) : Reply unit :=
  if decide (is_Some (sessions gm !! channel)) then Rejected GameAlreadyInChannel gm
  else
    let game := GameState.new channel host in
    let game := (addPlayer host (hostName info) game).2 in
    Resolved () (store channel (Lobby game) gm).

(** [joinGame] resolves with the [success] flag of [addPlayer]. *)
Definition joinGame (channel user : string) (gm : GameManager) : Reply bool :=
  match sessions gm !! channel with
  | None => Rejected NoGameFound gm
  | Some s =>
      let '(success, game) := addPlayer user "Player" (sessionGame s) in
      Resolved success (store channel (withGame game s) gm)
  end.

Definition getRoleMessage (p : Player) (g : GameState) : RoleNotice :=
  match role p with
  | Some CULTIST => RoleMessage (Some CULTIST) (cultLeader g)
  | r => RoleMessage r None
  end.

(** [sendRoleAssignments]: the direct messages it posts, as (recipient,
    notice), in order; a failure to deliver one is caught and logged. *)
Definition sendRoleAssignments (g : GameState) : list (string * RoleNotice) :=
  let players := getAllPlayers g in
  let pirates := filter (λ p, role p = Some PIRATE) players in
  ((λ p, (userId p, getRoleMessage p g)) <$> players)
  ++ (if decide (0 < length pirates)%nat
      then (λ p, (userId p, PirateRoster (userId <$> pirates))) <$> pirates
      else []).

(** [beginGame]: the reply, the direct messages and what the turn manager
    sends out.  The draws are those of [start] and of the first turn. *)
Definition beginGame (rand : nat → nat) (r : nat) (d : Dice) (channel host : string)
    (gm : GameManager) : Reply unit * list (string * RoleNotice) * list Effect :=
  match sessions gm !! channel with
  | None => (Rejected NoGameFound gm, [], [])
  | Some s =>
      let game := sessionGame s in
      if negb (isHost game host) then (Rejected OnlyHostCanStart gm, [], [])
      else if negb (canStart game) then (Rejected NeedFivePlayers gm, [], [])
      else
        match start rand r game with
        | Thrown g1 => (Rejected Uncaught (store channel (withGame g1 s) gm), [], [])
        | Normal g1 =>
            let turnManager := TurnManager.new g1 channel in
            let dms := sendRoleAssignments g1 in
            match TurnManager.startTurn d turnManager with
            | (Normal tm, es) => (Resolved () (store channel (Running tm) gm), dms, es)
            | (Thrown tm, es) => (Rejected Uncaught (store channel (Running tm) gm), dms, es)
            end
        end
  end.

(** An event is passed on to the turn manager of its channel; [channel] is
    [body.channel?.id || body.view?.private_metadata], absent when the body
    carries neither.  Without a turn manager the event is dropped. *)
Definition route (m : Method) (channel : option string) (gm : GameManager)
  : Reply unit * list Effect :=
  match channel with
  | Some c =>
      match sessions gm !! c with
      | Some (Running turnManager) =>
          match m turnManager with
          | (Normal tm, es) => (Resolved () (store c (Running tm) gm), es)
          | (Thrown tm, es) => (Rejected Uncaught (store c (Running tm) gm), es)
          end
      | _ => (Resolved () gm, [])
      end
  | None => (Resolved () gm, [])
  end.

Definition handleAction (d : Dice) (action : Action) (channel : option string)
    (user : string) : GameManager → Reply unit * list Effect :=
  route (TurnManager.handleAction d action user) channel.

Definition handleViewSubmission (d : Dice) (view : View) (channel : option string)
    (user : string) : GameManager → Reply unit * list Effect :=
  route (TurnManager.handleViewSubmission d view user) channel.

Definition getGame (channel : string) (gm : GameManager) : option GameState :=
  games gm !! channel.

Definition endGame (channel : string) (gm : GameManager) : GameManager :=
  mkGameManager (delete channel (sessions gm)).

End GameManager.

(** ** Repeated calls *)

(** [f] called [n] times in a row, stopping at the first throw. *)
Fixpoint repeatedly {S} (f : S → Completion S) (n : nat) (s : S) : Completion S :=
  match n with
  | O => Normal s
  | S n' => Roles.andThen (repeatedly f n' s) f
  end.

(** A sequence of join requests (identity, display name), failures ignored. *)
Definition joinAll (requests : list (string * string)) (g : GameState) : GameState :=
  foldl (λ g request, (GameState.addPlayer request.1 request.2 g).2) g requests.

(** A player as [addPlayer] creates it. *)
Definition recruit (u name : string) : Player := mkPlayer u name None true 3 None false.

(** ** Predicates used in the statements *)

(** The state of a session that has only seen players join. *)
Definition inLobby (g : GameState) : Prop :=
  NoDup (userId <$> players g) ∧
  Forall (λ p, isAlive p = true ∧ guns p = 3 ∧ role p = None) (players g) ∧
  status g = WAITING ∧ currentPhase g = LOBBY ∧ captain g = None ∧ currentTurn g = 0.

(** Two sessions that differ at most in their players and their cult leader. *)
Definition sameSession (g g' : GameState) : Prop :=
  channelId g' = channelId g ∧ hostId g' = hostId g ∧ status g' = status g ∧
  currentTurn g' = currentTurn g ∧ currentPhase g' = currentPhase g ∧
  captain g' = captain g ∧ lieutenant g' = lieutenant g ∧
  navigator g' = navigator g ∧ shipPosition g' = shipPosition g.

(** What no interactive action touches: the roster with its roles, guns and
    liveness, the status, the channel, the host and the cult leader. *)
Definition sameRoster (g g' : GameState) : Prop :=
  players g' = players g ∧ status g' = status g ∧ channelId g' = channelId g ∧
  hostId g' = hostId g ∧ cultLeader g' = cultLeader g.

(** The guns held by the players named in a set. *)
Definition gunsOfAll (g : GameState) (voters : gset string) : Z :=
  foldr Z.add 0 (TurnManager.gunsOf g <$> elements voters).

(** The ship after a sequence of moves, as [moveShip] applies them. *)
Definition sail (moves : list NavigationMovement) (g : GameState) : GameState :=
  foldl (λ g m, GameState.moveShip (dx m) (dy m) g) g moves.

(** ** Sample sessions *)

Module Sample.
Import GameState Roles TurnManager.

(** The lobby of "A" once "B", "C", "D" and "E" have joined. *)
Definition table : GameState :=
  joinAll [("B", "Player"); ("C", "Player"); ("D", "Player"); ("E", "Player")]%string
          (addPlayer "A" "Ann" (GameState.new "channel" "A")).2.

(** The same lobby, reached through the manager. *)
Definition lobby : GameManager :=
  let join user gm := managerOf (GameManager.joinGame "channel" user gm) in
  join "E"%string (join "D"%string (join "C"%string (join "B"%string
    (managerOf (GameManager.createGame (Some (Some "Ann"%string)) "channel" "A"
                  GameManager.new))))).

(** "E", the captain, has been eliminated and the captaincy not handed on. *)
Definition captainLost : GameState :=
  Fixture.session
    [ Fixture.crew "A" true 3; Fixture.crew "B" true 3; Fixture.crew "C" true 3;
      Fixture.crew "D" true 3; Fixture.crew "E" false 3 ]
    NAVIGATION "E".

(** A navigation round just entered: "C" is captain, "A" lieutenant. *)
Definition navigationRound : TurnManager :=
  after (navigationPhase Fixture.dice)
        (TurnManager.new (Fixture.session Fixture.five NAVIGATION "C") "channel").

(** The mutiny of [Scenario.nineGuns] with "B" having committed two guns. *)
Definition oneBallot : TurnManager :=
  set_mutinyVotes {[ "B"%string := 2 ]} Scenario.nineGuns.

(** The same mutiny with every voter having committed all three guns. *)
Definition allIn : TurnManager :=
  set_mutinyVotes (<[ "B"%string := 3 ]> (<[ "C"%string := 3 ]> {[ "D"%string := 3 ]}))
                  Scenario.nineGuns.

(** The mutiny of [Scenario.nineGuns] with the ballots 3, 2 and 0 in, before
    it is resolved. *)
Definition fiveOfNine : TurnManager :=
  set_mutinyVotes (<[ "B"%string := 3 ]> (<[ "C"%string := 2 ]> {[ "D"%string := 0 ]}))
                  Scenario.nineGuns.

(** Ten moves North. *)
Definition tenNorth : list NavigationMovement := replicate 10 (mkMovement 0 1).

End Sample.

(** * Properties *)

Set Warnings "-clear-no-such-hyp".

Ltac run_method :=
  unfold after, sent, andThenM, reading, update, emit, skip, onGame,
    TurnManager.toChannel, TurnManager.onGameState in *.

(** ** The win condition *)

Section WinCondition.
Import GameState TurnManager.

Lemma checkWinCondition_cases (g : GameState) :
  let px := x (shipPosition g) in
  let py := y (shipPosition g) in
  (10 ≤ px ∧ 5 ≤ py → winner (checkWinCondition g) = Some SAILORS) ∧
  (10 ≤ px ∧ py ≤ -5 → winner (checkWinCondition g) = Some PIRATES) ∧
  (10 ≤ py ∧ ¬ (10 ≤ px ∧ 5 ≤ py) → winner (checkWinCondition g) = Some CULT) ∧
  (¬ (10 ≤ px ∧ 5 ≤ py) ∧ ¬ (10 ≤ px ∧ py ≤ -5) ∧ ¬ 10 ≤ py →
     checkWinCondition g = mkWinCondition None None).
Proof.
  intros px py. unfold checkWinCondition. fold px py.
  destruct (Z.leb_spec 10 px), (Z.leb_spec 5 py), (Z.leb_spec py (-5)),
    (Z.leb_spec 10 py); simpl; repeat split; intros; try reflexivity; lia.
Qed.

(** When there is a winner [endTurn] announces it and changes nothing. *)
Lemma endTurn_with_winner (d : Dice) (tm : TurnManager) (w : Winner) :
  winner (checkWinCondition (game tm)) = Some w →
  endTurn d tm = (Normal tm, [postMessage (Some (managerChannelId tm)) (GameOver w)]).
Proof.
  intros Hw. unfold endTurn. run_method. rewrite Hw. reflexivity.
Qed.

(** C7. [checkWinCondition] depends on the ship position alone and reads
    the rules in order: Sailors when x >= 10 and y >= 5; Pirates when
    x >= 10 and y <= -5; Cult when y >= 10 (and the Sailors rule, which
    comes first, does not apply); no winner otherwise.  At (10,5) Sailors,
    at (10,-5) Pirates, at (0,10) Cult, at (9,5) nobody.  It returns a value
    and has no state to change: [endTurn], which evaluates it, leaves the
    session as it was when there is a winner. *)
Theorem checkWinCondition_by_position (g : GameState) :
  let px := x (shipPosition g) in
  let py := y (shipPosition g) in
  (∀ g', shipPosition g' = shipPosition g → checkWinCondition g' = checkWinCondition g) ∧
  (10 ≤ px ∧ 5 ≤ py → winner (checkWinCondition g) = Some SAILORS) ∧
  (10 ≤ px ∧ py ≤ -5 → winner (checkWinCondition g) = Some PIRATES) ∧
  (10 ≤ py ∧ ¬ (10 ≤ px ∧ 5 ≤ py) → winner (checkWinCondition g) = Some CULT) ∧
  (¬ (10 ≤ px ∧ 5 ≤ py) ∧ ¬ (10 ≤ px ∧ py ≤ -5) ∧ ¬ 10 ≤ py →
     winner (checkWinCondition g) = None) ∧
  winner (checkWinCondition (set_shipPosition (mkPosition 10 5) g)) = Some SAILORS ∧
  winner (checkWinCondition (set_shipPosition (mkPosition 10 (-5)) g)) = Some PIRATES ∧
  winner (checkWinCondition (set_shipPosition (mkPosition 0 10) g)) = Some CULT ∧
  winner (checkWinCondition (set_shipPosition (mkPosition 9 5) g)) = None ∧
  (∀ d tm w, game tm = g → winner (checkWinCondition g) = Some w →
             after (endTurn d) tm = tm).
Proof.
  intros px py.
  destruct (checkWinCondition_cases g) as (Hs & Hp & Hc & Hn).
  split; [|split; [done|split; [done|split; [done|split]]]].
  - intros g' E. unfold checkWinCondition. by rewrite E.
  - intros H. fold px py in Hn. by rewrite Hn.
  - repeat split; try reflexivity.
    intros d tm w <- Hw. unfold after. by rewrite (endTurn_with_winner d tm w Hw).
Qed.

End WinCondition.

(** ** Captain rotation and elimination *)

Section Rotation.
Import GameState.
Implicit Types (g : GameState) (p q : Player) (u : string) (ps : list Player).

Lemma findIndex_bounds {A} (P : A → Prop) `{∀ a, Decision (P a)} (l : list A) :
  -1 ≤ findIndex P l < Z.of_nat (length l).
Proof.
  unfold findIndex. destruct (list_find P l) as [[i a]|] eqn:E; [|lia].
  apply list_find_Some in E as (Hi & _ & _). apply lookup_lt_Some in Hi. lia.
Qed.

Lemma rotateCaptain_no_alive g :
  getAlivePlayers g = [] → rotateCaptain g = Thrown g.
Proof. intros H. unfold rotateCaptain. rewrite H. reflexivity. Qed.

Lemma rotateCaptain_some_alive g :
  getAlivePlayers g ≠ [] →
  ∃ p, p ∈ getAlivePlayers g ∧ rotateCaptain g = Normal (set_captain (Some (userId p)) g).
Proof.
  intros H. unfold rotateCaptain.
  set (alive := getAlivePlayers g) in *.
  set (cur := findIndex _ alive).
  destruct (decide (length alive = 0%nat)) as [E|E].
  { destruct alive; [done | discriminate]. }
  pose proof (findIndex_bounds (λ p, Some (userId p) = captain g) alive) as Hb.
  fold cur in Hb.
  assert (Hr : 0 ≤ Z.rem (cur + 1) (Z.of_nat (length alive)) < Z.of_nat (length alive)).
  { apply Z.rem_bound_pos; lia. }
  destruct (lookup_lt_is_Some_2 alive (Z.to_nat (Z.rem (cur + 1) (Z.of_nat (length alive)))))
    as [p Hp]; [lia|].
  rewrite Hp. exists p. split; [|done]. eapply list_elem_of_lookup_2; eauto.
Qed.

(** [rotateCaptain] only writes the [captain] field. *)
Lemma rotateCaptain_frame g :
  let g' := stateOf (rotateCaptain g) in
  players g' = players g ∧ currentPhase g' = currentPhase g ∧
  currentTurn g' = currentTurn g ∧ lieutenant g' = lieutenant g ∧
  navigator g' = navigator g ∧ shipPosition g' = shipPosition g ∧
  status g' = status g.
Proof.
  unfold rotateCaptain. destruct (decide _); [done|].
  destruct (_ !! _); done.
Qed.

(** With the captain alive, [rotateCaptain] hands the captaincy to the next
    alive player after the captain in join order, wrapping. *)
Lemma rotateCaptain_next g u p :
  captain g = Some u →
  getPlayer g u = Some p →
  isAlive p = true →
  rotateCaptain g = Normal (set_captain (Spec.nextAliveAfter u (players g)) g).
Proof.
  intros Hc Hg Ha. unfold getPlayer in Hg.
  destruct (list_find _ (players g)) as [[i p']|] eqn:Hf; simplify_eq/=.
  pose proof Hf as Hf'. apply list_find_Some in Hf' as (Hi & Hu & Hbefore).
  unfold Spec.nextAliveAfter, Spec.joinOrderAfter. rewrite Hf.
  unfold rotateCaptain, getAlivePlayers, getAllPlayers.
  rewrite (take_S_r _ _ _ Hi).
  pose proof (take_drop_middle _ _ _ Hi) as Hps.
  set (pre := take i (players g)) in *. set (post := drop (S i) (players g)) in *.
  rewrite <- Hps.
  assert (Hpre : Forall (λ q, ¬ Some (userId q) = captain g)
                        (filter (λ q, isAlive q = true) pre)).
  { apply Forall_forall. intros q Hq. apply list_elem_of_filter in Hq as [_ Hq].
    apply list_elem_of_lookup in Hq as [j Hj]. subst pre.
    pose proof (lookup_lt_Some _ _ _ Hj) as Hlt. rewrite length_take in Hlt.
    rewrite lookup_take_lt in Hj by lia. rewrite Hc. intros [= E].
    eapply Hbefore; eauto. lia. }
  rewrite !filter_app, !filter_cons_True by done.
  rewrite filter_nil.
  set (fpre := filter _ pre) in *. set (fpost := filter _ post).
  assert (Hidx : findIndex (λ q, Some (userId q) = captain g) (fpre ++ p :: fpost)
                 = Z.of_nat (length fpre)).
  { unfold findIndex. rewrite list_find_app_r by (by apply list_find_None).
    simpl. rewrite decide_True by congruence. simpl. f_equal. }
  rewrite Hidx. rewrite decide_False by (rewrite length_app; simpl; lia).
  rewrite length_app. simpl length.
  destruct fpost as [|q fpost'].
  - simpl length. replace (Z.of_nat (length fpre + 1)) with (Z.of_nat (length fpre) + 1) by lia.
    rewrite Z.rem_same by lia. simpl.
    destruct fpre; reflexivity.
  - simpl length. rewrite Z.rem_small by lia.
    replace (Z.to_nat (Z.of_nat (length fpre) + 1)) with (length fpre + 1)%nat by lia.
    rewrite lookup_app_r by lia. replace (length fpre + 1 - length fpre)%nat with 1%nat by lia.
    reflexivity.
Qed.

Lemma markDead_userIds u ps : userId <$> markDead u ps = userId <$> ps.
Proof.
  induction ps as [|p ps IH]; [done|]. cbn [markDead].
  destruct (decide (userId p = u)); rewrite !fmap_cons; [done | by rewrite IH].
Qed.

Lemma markDead_guns u ps : guns <$> markDead u ps = guns <$> ps.
Proof.
  induction ps as [|p ps IH]; [done|]. cbn [markDead].
  destruct (decide (userId p = u)); rewrite !fmap_cons; [done | by rewrite IH].
Qed.

(** The other players are the same objects before and after. *)
Lemma markDead_others u ps q :
  userId q ≠ u → q ∈ markDead u ps ↔ q ∈ ps.
Proof.
  intros Hq. induction ps as [|p ps IH]; [done|]. simpl.
  destruct (decide (userId p = u)) as [E|E].
  - rewrite !elem_of_cons. split; intros [->|H]; auto.
    + simpl in Hq. done.
    + congruence.
  - rewrite !elem_of_cons, IH. done.
Qed.

Lemma markDead_getPlayer g u p :
  getPlayer g u = Some p →
  getPlayer (set_players (markDead u (players g)) g) u = Some (set_isAlive false p).
Proof.
  unfold getPlayer. simpl. generalize (players g). intros ps.
  induction ps as [|a ps IH]; [done|]. simpl.
  destruct (decide (userId a = u)) as [E|E]; simpl.
  - intros [= ->]. rewrite decide_True by done. done.
  - rewrite decide_False by done.
    destruct (list_find _ ps) as [[i b]|]; simpl; [|done].
    intros [= ->]. specialize (IH eq_refl).
    destruct (list_find _ (markDead u ps)) as [[j c]|]; simpl in *; congruence.
Qed.

Lemma filter_ext_Forall {A} (P Q : A → Prop)
    `{∀ a, Decision (P a)} `{∀ a, Decision (Q a)} (l : list A) :
  Forall (λ a, P a ↔ Q a) l → filter P l = filter Q l.
Proof.
  induction 1 as [|a l Ha _ IH]; [done|].
  destruct (decide (P a)) as [HP|HP].
  - rewrite !filter_cons_True by tauto. by rewrite IH.
  - rewrite !filter_cons_False by tauto. done.
Qed.

Lemma filter_none {A} (P : A → Prop) `{∀ a, Decision (P a)} (l : list A) :
  Forall (λ a, ¬ P a) l → filter P l = [].
Proof.
  induction 1 as [|a l Ha _ IH]; [done|]. by rewrite filter_cons_False.
Qed.

(** In a map (distinct keys) the players alive after [markDead u] are those
    that were alive, [u] apart. *)
Lemma markDead_alive u ps :
  NoDup (userId <$> ps) →
  filter (λ q, isAlive q = true) (markDead u ps)
  = filter (λ q, isAlive q = true ∧ userId q ≠ u) ps.
Proof.
  induction ps as [|p ps IH]; [done|]. rewrite fmap_cons, NoDup_cons.
  intros [Hp Hnd]. cbn [markDead]. destruct (decide (userId p = u)) as [E|E].
  - rewrite filter_cons_False by (simpl; done).
    rewrite (filter_cons_False _ p) by tauto.
    apply filter_ext_Forall. apply Forall_forall. intros q Hq.
    assert (Hne : userId q ≠ u); [|tauto].
    intros E'. apply Hp. rewrite E, <- E'. by apply list_elem_of_fmap_2.
  - destruct (isAlive p) eqn:Ea.
    + rewrite !filter_cons_True by done. by rewrite IH.
    + rewrite !filter_cons_False by (rewrite Ea; intuition discriminate). by rewrite IH.
Qed.

(** What [eliminatePlayer] does to a captain: the captain is no longer among
    the alive players when [rotateCaptain] looks for it, [findIndex] answers
    -1 and the captaincy goes to the first alive player in join order. *)
Lemma eliminatePlayer_captain g u p :
  NoDup (userId <$> players g) →
  captain g = Some u →
  getPlayer g u = Some p →
  let g1 := set_players (markDead u (players g)) g in
  eliminatePlayer u g =
    match head (getAlivePlayers g1) with
    | Some q => Normal (set_captain (Some (userId q)) g1)
    | None => Thrown g1
    end.
Proof.
  intros Hnd Hc Hg g1. unfold eliminatePlayer. rewrite Hg. fold g1.
  rewrite decide_True by done.
  unfold rotateCaptain.
  assert (Hidx : findIndex (λ q, Some (userId q) = captain g1) (getAlivePlayers g1) = -1).
  { unfold findIndex.
    destruct (list_find _ _) as [[i q]|] eqn:Hf; [|done].
    apply list_find_Some in Hf as (Hi & Hq & _).
    apply list_elem_of_lookup_2 in Hi. unfold getAlivePlayers, getAllPlayers, g1 in Hi.
    simpl in Hi. rewrite markDead_alive in Hi by done.
    apply list_elem_of_filter in Hi as [[_ Hne] _]. simpl in Hq. congruence. }
  rewrite Hidx. destruct (getAlivePlayers g1) as [|q l]; [done|].
  rewrite decide_False by done. simpl length.
  rewrite Z.rem_0_l by lia. done.
Qed.

(** C3. [rotateCaptain] with an alive captain moves to the next alive player
    in join order ([rotateCaptain_next]); [eliminatePlayer] marks the player
    dead and leaves the others alone ([markDead_getPlayer], [markDead_others],
    [markDead_guns]); but an eliminated captain is succeeded by the first
    alive player in join order, not by the next one after the captain: with
    A to E alive and C the captain, eliminating C makes A the captain, where
    the next alive player after C is D. *)
Theorem eliminatePlayer_captain_goes_to_first :
  let g := Fixture.session Fixture.five NAVIGATION "C" in
  let g' := stateOf (eliminatePlayer "C" g) in
  returns (eliminatePlayer "C" g) = true ∧
  isAlive <$> getPlayer g' "C" = Some false ∧
  captain g' = Some "A"%string ∧
  Spec.nextAliveAfter "C" (players g') = Some "D"%string ∧
  Spec.nextAliveAfter "C" (players g) = Some "D"%string.
Proof. repeat split; reflexivity. Qed.

(** C10. [rotateCaptain] throws exactly when no player is alive: the index
    is then a remainder by zero and the lookup in the empty array fails.
    With a player alive it returns and the new captain is an alive player.
    [eliminatePlayer] on a captain who is the last player alive throws and
    leaves the dead player as captain; whenever a player is left alive it
    returns. *)
Theorem rotateCaptain_needs_alive_player (g : GameState) :
  (getAlivePlayers g = [] → rotateCaptain g = Thrown g) ∧
  (getAlivePlayers g ≠ [] →
     ∃ p, p ∈ players g ∧ isAlive p = true ∧
          rotateCaptain g = Normal (set_captain (Some (userId p)) g)) ∧
  (∀ u, NoDup (userId <$> players g) → captain g = Some u →
        is_Some (getPlayer g u) →
        (∀ p, p ∈ players g → isAlive p = true → userId p = u) →
     let g1 := set_players (markDead u (players g)) g in
     eliminatePlayer u g = Thrown g1 ∧ getAlivePlayers g1 = [] ∧ captain g1 = Some u) ∧
  (∀ u, getAlivePlayers (set_players (markDead u (players g)) g) ≠ [] →
        returns (eliminatePlayer u g) = true).
Proof.
  split; [apply rotateCaptain_no_alive|]. split; [|split].
  - intros H. destruct (rotateCaptain_some_alive g H) as (p & Hp & E).
    exists p. unfold getAlivePlayers, getAllPlayers in Hp.
    apply list_elem_of_filter in Hp as [Ha Hp]. done.
  - intros u Hnd Hc [p Hp] Hall g1.
    assert (Hnone : getAlivePlayers g1 = []).
    { unfold getAlivePlayers, getAllPlayers, g1. simpl. rewrite markDead_alive by done.
      apply filter_none, Forall_forall. intros q Hq [Ha Hne]. auto. }
    rewrite (eliminatePlayer_captain g u p) by done. fold g1. rewrite Hnone. done.
  - intros u Hne. unfold eliminatePlayer. destruct (getPlayer g u); [|done].
    destruct (decide _); [|done].
    destruct (rotateCaptain_some_alive _ Hne) as (q0 & _ & ->). done.
Qed.

End Rotation.

(** ** Role assignment *)

Section Shuffle.
Import Roles.
Context {A : Type}.
Implicit Types (l : list A) (i j : nat).

Lemma insert_head_perm l j a b :
  l !! j = Some b → b :: <[j := a]> l ≡ₚ a :: l.
Proof.
  revert l. induction j as [|j IH]; intros [|c l] H; simplify_eq/=.
  - apply perm_swap.
  - rewrite (perm_swap c b). rewrite (IH l H). apply perm_swap.
Qed.

Lemma insert_insert_perm l i j a b :
  (i < j)%nat → l !! i = Some a → l !! j = Some b →
  <[j := a]> (<[i := b]> l) ≡ₚ l.
Proof.
  revert l j. induction i as [|i IH]; intros [|c l] [|j] Hlt Ha Hb; simplify_eq/=; try lia.
  - by apply insert_head_perm.
  - f_equiv. apply IH; [lia|done..].
Qed.

Lemma swap_perm i j l : swap i j l ≡ₚ l.
Proof.
  unfold swap. destruct (l !! i) as [a|] eqn:Ha; [|done].
  destruct (l !! j) as [b|] eqn:Hb; [|done].
  destruct (Nat.lt_trichotomy i j) as [H|[->|H]].
  - by apply insert_insert_perm.
  - simplify_eq. rewrite list_insert_insert_eq. by rewrite list_insert_id.
  - rewrite list_insert_insert_ne by lia. by apply insert_insert_perm.
Qed.

Lemma shuffleFrom_perm rand i l : shuffleFrom rand i l ≡ₚ l.
Proof.
  revert l. induction i as [|i IH]; intros l; [done|].
  cbn [shuffleFrom]. rewrite IH. apply swap_perm.
Qed.

(** Whatever the draws, the Fisher-Yates loop permutes the array. *)
Lemma shuffle_perm rand l : shuffle rand l ≡ₚ l.
Proof. apply shuffleFrom_perm. Qed.

End Shuffle.

Section Assign.
Import GameState Roles.
Implicit Types (g : GameState) (ps : list Player) (arr : list nat) (r : PlayerRole).

(** A counted loop that stays inside the array returns, having run its body
    on the elements it walked over. *)
Lemma assignLoop_normal count body arr idx g :
  (idx + count ≤ length arr)%nat →
  assignLoop count body arr (idx, g) =
    Normal ((idx + count)%nat, foldl (λ g ref, body ref g) g (take count (drop idx arr))).
Proof.
  revert idx g. induction count as [|count IH]; intros idx g Hle.
  - simpl. by rewrite Nat.add_0_r.
  - destruct (lookup_lt_is_Some_2 arr idx) as [ref Href]; [lia|].
    cbn [assignLoop]. simpl. rewrite Href, IH by lia.
    rewrite (drop_S _ _ _ Href). simpl. do 2 f_equal. lia.
Qed.

Lemma setRoles_length assigned ps : length (setRoles assigned ps) = length ps.
Proof.
  revert ps. induction assigned as [|a l IH]; intros ps; [done|].
  unfold setRoles in *. simpl. rewrite IH. apply length_alter.
Qed.

Lemma setRoles_app l1 l2 ps : setRoles (l1 ++ l2) ps = setRoles l2 (setRoles l1 ps).
Proof. apply foldl_app. Qed.

Lemma setRoles_userIds assigned ps : userId <$> setRoles assigned ps = userId <$> ps.
Proof.
  revert ps. induction assigned as [|a l IH]; intros ps; [done|].
  unfold setRoles in *. simpl. rewrite IH.
  rewrite (list_fmap_alter userId (set_role a.2) id) by (by apply Forall_true).
  by apply list_alter_id.
Qed.

Lemma setRoles_lookup_other assigned ps i :
  i ∉ assigned.*1 → setRoles assigned ps !! i = ps !! i.
Proof.
  revert ps. induction assigned as [|[a ra] l IH]; intros ps Hi; [done|].
  rewrite fmap_cons, not_elem_of_cons in Hi. destruct Hi as [Hne Hi].
  unfold setRoles in *. simpl. rewrite IH by done.
  by rewrite list_lookup_alter_ne.
Qed.

(** A position written once holds the role written there. *)
Lemma setRoles_lookup assigned ps i r :
  NoDup assigned.*1 → (i, r) ∈ assigned → (i < length ps)%nat →
  role <$> setRoles assigned ps !! i = Some (Some r).
Proof.
  revert ps. induction assigned as [|[a ra] l IH]; intros ps Hnd Hin Hlt.
  { by apply elem_of_nil in Hin. }
  rewrite fmap_cons, NoDup_cons in Hnd. destruct Hnd as [Ha Hnd].
  apply elem_of_cons in Hin as [[= -> ->]|Hin].
  - change (setRoles ((a, ra) :: l) ps) with (setRoles l (alter (set_role ra) a ps)).
    rewrite setRoles_lookup_other by done.
    rewrite list_lookup_alter_eq.
    destruct (lookup_lt_is_Some_2 ps a Hlt) as [p ->]. done.
  - change (setRoles ((a, ra) :: l) ps) with (setRoles l (alter (set_role ra) a ps)).
    apply IH; [done..|]. by rewrite length_alter.
Qed.

Lemma fmap_lookup_seq {B} (l : list B) (d : B) :
  (λ i, default d (l !! i)) <$> seq 0 (length l) = l.
Proof.
  apply list_eq. intros i. rewrite list_lookup_fmap.
  destruct (decide (i < length l)%nat) as [H|H].
  - rewrite lookup_seq_lt by done. simpl.
    destruct (lookup_lt_is_Some_2 l i H) as [b ->]. done.
  - rewrite lookup_seq_ge by lia. simpl. symmetry. apply lookup_ge_None. lia.
Qed.

(** When every position is written exactly once, the roles of the players
    are, up to order, the roles written. *)
Lemma setRoles_roles assigned ps :
  assigned.*1 ≡ₚ seq 0 (length ps) →
  role <$> setRoles assigned ps ≡ₚ Some <$> assigned.*2.
Proof.
  intros Hperm.
  assert (Hnd : NoDup assigned.*1) by (rewrite Hperm; apply NoDup_seq).
  set (ps' := setRoles assigned ps).
  rewrite <- (fmap_lookup_seq (role <$> ps') None).
  rewrite length_fmap. unfold ps' at 2. rewrite setRoles_length, <- Hperm.
  rewrite <- !list_fmap_compose.
  erewrite list_fmap_ext; [reflexivity|].
  intros k [i r] Hk. simpl.
  rewrite list_lookup_fmap. unfold ps'.
  rewrite (setRoles_lookup assigned ps i r); [done|done|..].
  - eapply list_elem_of_lookup_2; eauto.
  - assert (Hi : i ∈ assigned.*1).
    { apply list_elem_of_fmap. exists (i, r). split; [done|].
      eapply list_elem_of_lookup_2; eauto. }
    rewrite Hperm in Hi. apply elem_of_seq in Hi. lia.
Qed.

Lemma assignRoleTo_foldl r g (A : list nat) :
  let g' := foldl (λ g ref, assignRoleTo r ref g) g A in
  players g' = setRoles ((λ ref, (ref, r)) <$> A) (players g) ∧
  cultLeader g' = cultLeader g.
Proof.
  revert g. induction A as [|a A IH]; intros g; [done|].
  simpl. destruct (IH (assignRoleTo r a g)) as [-> ->]. done.
Qed.

(** The four loops walk over consecutive segments that make up the array. *)
Lemma segments arr (a b c : nat) :
  take a (drop 0 arr) ++ take b (drop a arr) ++ take c (drop (a + b) arr)
    ++ take (length arr - (a + b + c)) (drop (a + b + c) arr) = arr.
Proof.
  rewrite drop_0.
  rewrite (take_ge (drop (a + b + c) arr)) by (rewrite length_drop; lia).
  rewrite <- (drop_drop arr c (a + b)), take_drop.
  rewrite <- (drop_drop arr b a), take_drop.
  apply take_drop.
Qed.

Lemma countRole_roles r ps :
  Spec.countRole r ps = length (filter (λ o, o = Some r) (role <$> ps)).
Proof.
  unfold Spec.countRole. induction ps as [|p ps IH]; [done|].
  rewrite fmap_cons. destruct (decide (role p = Some r)) as [E|E].
  - rewrite !filter_cons_True by done. simpl. by rewrite IH.
  - rewrite !filter_cons_False by done. done.
Qed.

Lemma count_constant r r' (A : list nat) :
  length (filter (λ o, o = Some r) (Some <$> ((λ ref, (ref, r')) <$> A).*2))
  = if decide (r = r') then length A else 0%nat.
Proof.
  induction A as [|a A IH]; [by destruct (decide _)|].
  rewrite !fmap_cons. simpl. destruct (decide (r = r')) as [->|E].
  - rewrite filter_cons_True by done. simpl. by rewrite IH.
  - rewrite filter_cons_False by congruence. done.
Qed.

(** The table of the source against the one of the rules, and the room the
    special roles need. *)
Lemma roleCounts_fit n :
  (5 ≤ n)%nat →
  roleCounts n = (Spec.pirates n, 1%nat, Spec.cultists n) ∧
  (1 + Spec.pirates n + Spec.cultists n ≤ n)%nat.
Proof.
  intros Hn. unfold roleCounts, Spec.pirates, Spec.cultists.
  repeat case_decide; (split; [reflexivity || lia | lia]).
Qed.

(** C8. With at least five players (the claim's 5 to 12 included),
    [assignRoles] returns; the players keep their identities and each one
    has a role; there are 2 pirates up to 7 players and 3 from 8 on, one cult
    leader, no cultist up to 6 players, 1 for 7 and 8 and 2 from 9 on, the
    others are sailors, and the counts add up to the number of players; the
    session's [cultLeader] field names the player who is the cult leader. *)
Theorem assignRoles_table (rand : nat → nat) (g : GameState) :
  (5 ≤ length (players g))%nat →
  ∃ g', assignRoles rand g = Normal g' ∧
    userId <$> players g' = userId <$> players g ∧
    (∀ q, q ∈ players g' → is_Some (role q)) ∧
    Spec.countRole PIRATE (players g') = Spec.pirates (length (players g)) ∧
    Spec.countRole CULT_LEADER (players g') = 1%nat ∧
    Spec.countRole CULTIST (players g') = Spec.cultists (length (players g)) ∧
    Spec.countRole SAILOR (players g') =
      (length (players g) - (1 + Spec.pirates (length (players g))
                               + Spec.cultists (length (players g))))%nat ∧
    (Spec.countRole PIRATE (players g') + Spec.countRole CULT_LEADER (players g')
       + Spec.countRole CULTIST (players g') + Spec.countRole SAILOR (players g')
     = length (players g))%nat ∧
    ∃ q, q ∈ players g' ∧ role q = Some CULT_LEADER ∧ cultLeader g' = Some (userId q).
Proof.
  intros Hn. unfold assignRoles.
  set (n := length (players g)) in *.
  destruct (roleCounts_fit n Hn) as [-> Hfit].
  set (arr := shuffle rand (seq 0 n)).
  assert (Harr : arr ≡ₚ seq 0 n) by apply shuffle_perm.
  assert (Hlen : length arr = n) by (by rewrite Harr, length_seq).
  set (pc := Spec.pirates n) in *. set (cc := Spec.cultists n) in *.
  rewrite assignLoop_normal by lia. cbn [andThen].
  rewrite assignLoop_normal by lia. cbn [andThen].
  rewrite assignLoop_normal by lia. cbn [andThen].
  cbn [fst snd]. rewrite assignLoop_normal by lia.
  cbn [fst snd]. eexists. split; [reflexivity|].
  set (A0 := take 1 (drop 0 arr)). set (A1 := take pc (drop (0 + 1) arr)).
  set (A2 := take cc (drop (0 + 1 + pc) arr)).
  set (A3 := take (length arr - (0 + 1 + pc + cc)) (drop (0 + 1 + pc + cc) arr)).
  assert (Hseg : A0 ++ A1 ++ A2 ++ A3 = arr) by apply (segments arr 1 pc cc).
  destruct (lookup_lt_is_Some_2 arr 0) as [a0 Ha0]; [lia|].
  assert (HA0 : A0 = [a0]).
  { subst A0. rewrite drop_0. destruct arr; simplify_eq/=. by rewrite take_0. }
  set (g0 := foldl (λ g ref, assignCultLeaderTo ref g) g A0).
  assert (Hg0 : players g0 = setRoles ((λ ref, (ref, CULT_LEADER)) <$> A0) (players g)
                ∧ cultLeader g0 = userId <$> players g !! a0).
  { subst g0. rewrite HA0. simpl. split; [done|].
    rewrite list_lookup_alter_eq. by destruct (players g !! a0). }
  destruct Hg0 as [Hp0 Hc0].
  set (g1 := foldl _ g0 A1). destruct (assignRoleTo_foldl PIRATE g0 A1) as [Hp1 Hc1].
  fold g1 in Hp1, Hc1.
  set (g2 := foldl _ g1 A2). destruct (assignRoleTo_foldl CULTIST g1 A2) as [Hp2 Hc2].
  fold g2 in Hp2, Hc2.
  set (g3 := foldl _ g2 A3). destruct (assignRoleTo_foldl SAILOR g2 A3) as [Hp3 Hc3].
  fold g3 in Hp3, Hc3.
  set (assigned := ((λ ref, (ref, CULT_LEADER)) <$> A0) ++ ((λ ref, (ref, PIRATE)) <$> A1)
        ++ ((λ ref, (ref, CULTIST)) <$> A2) ++ ((λ ref, (ref, SAILOR)) <$> A3)).
  assert (Hps : players g3 = setRoles assigned (players g)).
  { subst assigned. rewrite !setRoles_app. congruence. }
  assert (Hfst : assigned.*1 = arr).
  { subst assigned. rewrite !fmap_app, <- !list_fmap_compose.
    rewrite !(list_fmap_ext (fst ∘ _) id) by done. by rewrite !list_fmap_id. }
  assert (Hroles : role <$> players g3 ≡ₚ Some <$> assigned.*2).
  { rewrite Hps. apply setRoles_roles. by rewrite Hfst. }
  assert (Hcount : ∀ r, Spec.countRole r (players g3) =
     ((if decide (r = CULT_LEADER) then 1 else 0) + (if decide (r = PIRATE) then pc else 0)
      + (if decide (r = CULTIST) then cc else 0)
      + (if decide (r = SAILOR) then n - (1 + pc + cc) else 0))%nat).
  { intros r. rewrite countRole_roles, Hroles. subst assigned.
    rewrite !fmap_app, !filter_app, !length_app, !count_constant.
    subst A0 A1 A2 A3. rewrite !length_take, !length_drop.
    repeat case_decide; lia. }
  split; [by rewrite Hps, setRoles_userIds|].
  split.
  { intros q Hq. assert (Hr : role q ∈ role <$> players g3) by (by apply list_elem_of_fmap_2).
    rewrite Hroles in Hr. apply list_elem_of_fmap in Hr as (r & -> & _). eauto. }
  rewrite !Hcount. repeat (split; [repeat case_decide; try done; lia|]).
  assert (Hlt : (a0 < n)%nat).
  { assert (Hin : a0 ∈ arr) by (eapply list_elem_of_lookup_2; eauto).
    rewrite Harr in Hin. apply elem_of_seq in Hin. lia. }
  destruct (lookup_lt_is_Some_2 (players g3) a0) as [q Hq].
  { rewrite Hps, setRoles_length. done. }
  exists q. split; [eapply list_elem_of_lookup_2; eauto|]. split.
  - assert (Hr : role <$> players g3 !! a0 = Some (Some CULT_LEADER)).
    { rewrite Hps. apply setRoles_lookup; [rewrite Hfst, Harr; apply NoDup_seq| |done].
      subst assigned. rewrite HA0. simpl. left. }
    rewrite Hq in Hr. by simplify_eq/=.
  - rewrite Hc3, Hc2, Hc1, Hc0.
    assert (Hu : (userId <$> players g3) !! a0 = (userId <$> players g) !! a0).
    { by rewrite Hps, setRoles_userIds. }
    rewrite !list_lookup_fmap, Hq in Hu. simpl in Hu. done.
Qed.

(** Five players, with draws that swap at every step. *)
Lemma assignRoles_table_witness :
  (5 ≤ length (players (Fixture.session Fixture.five NIGHT "A")))%nat ∧
  ∃ g', assignRoles (λ _, 0%nat) (Fixture.session Fixture.five NIGHT "A") = Normal g' ∧
    Spec.countRole PIRATE (players g') = 2%nat ∧
    Spec.countRole CULT_LEADER (players g') = 1%nat ∧
    Spec.countRole CULTIST (players g') = 0%nat ∧
    Spec.countRole SAILOR (players g') = 2%nat.
Proof.
  split; [simpl; lia|].
  destruct (assignRoles_table (λ _, 0%nat) (Fixture.session Fixture.five NIGHT "A"))
    as (g' & E & _ & _ & Hp & Hl & Hc & Hs & _); [simpl; lia|].
  exists g'. repeat split; assumption.
Defined.

End Assign.

(** ** Phases and the mutiny *)

Section Mutiny.
Import GameState Roles TurnManager.

(** [executePhase] returns, and leaves the session and the mutiny flag as
    they are. *)
Lemma executePhase_frame d tm :
  ∃ tm', fst (executePhase d tm) = Normal tm' ∧ game tm' = game tm ∧
         lastMutinySucceeded tm' = lastMutinySucceeded tm.
Proof.
  unfold executePhase, reading.
  destruct (currentPhase (game tm)); unfold mutinyPhase; run_method; simpl;
    try destruct (mutinyTimeoutId tm); eexists; (split; [reflexivity|]); split; reflexivity.
Qed.

Lemma resolveMutiny_returns d tm :
  ∃ tm', fst (resolveMutiny d tm) = Normal tm' ∧
    lastMutinySucceeded tm' = mutinySucceeded tm ∧
    game tm' =
      if mutinySucceeded tm
      then set_currentPhase NAVIGATION_SELECTION (electCaptainByGuns (election d) (game tm))
      else set_currentPhase NAVIGATION (game tm).
Proof.
  unfold resolveMutiny. run_method.
  assert (Hs : ∀ b, mutinySucceeded (set_mutinyTimeoutId b tm) = mutinySucceeded tm) by done.
  destruct (mutinyTimeoutId tm); simpl; rewrite ?Hs;
    destruct (mutinySucceeded tm) eqn:Hm; simpl;
    eexists; (split; [reflexivity|]); split; reflexivity.
Qed.

Lemma resolveMutiny_votes d tm :
  mutinyVotes (after (resolveMutiny d) tm) = mutinyVotes tm.
Proof.
  unfold resolveMutiny. run_method.
  assert (Hs : ∀ b, mutinySucceeded (set_mutinyTimeoutId b tm) = mutinySucceeded tm) by done.
  destruct (mutinyTimeoutId tm); simpl; rewrite ?Hs;
    destruct (mutinySucceeded tm); reflexivity.
Qed.

(** A first submission adds its guns to the total; a repeated one replaces
    the earlier count. *)
Lemma totalGunsUsed_insert tm u n :
  totalGunsUsed (set_mutinyVotes (<[u := n]> (mutinyVotes tm)) tm)
  = totalGunsUsed tm - default 0 (mutinyVotes tm !! u) + n.
Proof.
  unfold totalGunsUsed. simpl.
  assert (Hins : ∀ (m : gmap string Z) k v, m !! k = None →
            map_fold (λ _ guns total, total + guns) 0 (<[k := v]> m)
            = map_fold (λ _ guns total, total + guns) 0 m + v).
  { intros m k v Hk. rewrite map_fold_insert_L; [done| |done]. intros; lia. }
  destruct (mutinyVotes tm !! u) as [v|] eqn:E; simpl.
  - rewrite <- (insert_delete_id (mutinyVotes tm) u v E) at 2.
    rewrite <- insert_delete_eq.
    rewrite !Hins by apply lookup_delete_eq. lia.
  - rewrite Hins by done. lia.
Qed.

Lemma foldl_sum (a : Z) (l : list Z) :
  foldl (λ sum guns, sum + guns) a l = a + foldr Z.add 0 l.
Proof.
  revert a. induction l as [|b l IH]; intros a; simpl; [lia|]. rewrite IH. lia.
Qed.

Lemma sum_perm (l1 l2 : list Z) : l1 ≡ₚ l2 → foldr Z.add 0 l1 = foldr Z.add 0 l2.
Proof. induction 1; simpl; lia. Qed.

Lemma find_snd_cons {A} (P : A → Prop) `{∀ a, Decision (P a)} (a : A) (l : list A) :
  snd <$> list_find P (a :: l) = if decide (P a) then Some a else snd <$> list_find P l.
Proof.
  simpl. destruct (decide (P a)); [done|]. by destruct (list_find P l) as [[]|].
Qed.

Lemma totalCrewGuns_sum tm : totalCrewGuns tm = gunsOfAll (game tm) (mutinyEligibleVoters tm).
Proof. unfold totalCrewGuns, gunsOfAll. rewrite foldl_sum. lia. Qed.

Lemma gunsOfAll_remove g (X : gset string) i :
  i ∈ X → gunsOfAll g X = gunsOf g i + gunsOfAll g (X ∖ {[i]}).
Proof.
  intros Hi. unfold gunsOfAll.
  assert (HX : X = {[i]} ∪ (X ∖ {[i]})).
  { apply set_eq. intros u. rewrite elem_of_union, elem_of_difference, elem_of_singleton.
    destruct (decide (u = i)) as [->|]; naive_solver. }
  rewrite HX at 1.
  rewrite (sum_perm _ (gunsOf g <$> (i :: elements (X ∖ {[i]})))).
  - done.
  - apply fmap_Permutation, elements_union_singleton. set_solver.
Qed.

(** The tally of the ballots is the sum of the recorded submissions. *)
Lemma totalGunsUsed_submitted (tm : TurnManager) :
  totalGunsUsed tm = Spec.submitted (mutinyVotes tm).
Proof.
  unfold totalGunsUsed, Spec.submitted.
  apply (map_fold_weak_ind (λ r (m : gmap string Z), r = foldr Z.add 0 (map_to_list m).*2)).
  - by rewrite map_to_list_empty.
  - intros i x m r Hi ->.
    rewrite (sum_perm ((map_to_list (<[i:=x]> m)).*2) (((i, x) :: map_to_list m).*2)).
    + rewrite fmap_cons. cbn [foldr snd]. lia.
    + apply fmap_Permutation. by apply map_to_list_insert.
Qed.

Lemma gunsOfAll_ext (g g' : GameState) (X : gset string) :
  (∀ u, u ∈ X → gunsOf g u = gunsOf g' u) → gunsOfAll g X = gunsOfAll g' X.
Proof.
  intros H. unfold gunsOfAll. f_equal. apply list_fmap_ext.
  intros i u Hu. apply H. apply elem_of_elements. eapply list_elem_of_lookup_2; eauto.
Qed.

Lemma gunsOf_cons (g : GameState) (a : Player) (ps : list Player) (u : string) :
  gunsOf (set_players (a :: ps) g) u
  = if decide (userId a = u) then guns a else gunsOf (set_players ps g) u.
Proof.
  unfold gunsOf, getPlayer. cbn [players set_players]. rewrite find_snd_cons.
  by destruct (decide (userId a = u)).
Qed.

(** Looking up each voter among players with distinct identities adds up
    the guns of the players who are voters. *)
Lemma gunsOfAll_players (g : GameState) (ps : list Player) (X : gset string) :
  NoDup (userId <$> ps) →
  gunsOfAll (set_players ps g) X = Spec.crewGuns ps X.
Proof.
  unfold Spec.crewGuns. revert X. induction ps as [|a ps IH]; intros X Hnd.
  - unfold gunsOfAll. simpl. induction (elements X) as [|u l IHl]; [done|].
    rewrite fmap_cons. cbn [foldr]. rewrite IHl. reflexivity.
  - rewrite fmap_cons, NoDup_cons in Hnd. destruct Hnd as [Ha Hnd].
    rewrite filter_cons. destruct (decide (userId a ∈ X)) as [Hin|Hin].
    + rewrite (gunsOfAll_remove _ X (userId a) Hin), gunsOf_cons, decide_True by done.
      rewrite fmap_cons. cbn [foldr]. f_equal.
      rewrite (gunsOfAll_ext _ (set_players ps g)).
      * rewrite IH by done. f_equal. f_equal. apply filter_ext_Forall.
        apply Forall_forall. intros p Hp.
        assert (userId p ≠ userId a).
        { intros E. apply Ha. rewrite <- E. by apply list_elem_of_fmap_2. }
        set_solver.
      * intros u Hu. rewrite gunsOf_cons, decide_False; [done|]. set_solver.
    + rewrite (gunsOfAll_ext _ (set_players ps g)).
      * by apply IH.
      * intros u Hu. rewrite gunsOf_cons, decide_False; [done|].
        intros E. apply Hin. by rewrite E.
Qed.

(** The crew's guns are the sum of the eligible voters' current guns. *)
Lemma totalCrewGuns_crewGuns (tm : TurnManager) :
  NoDup (userId <$> players (game tm)) →
  totalCrewGuns tm = Spec.crewGuns (players (game tm)) (mutinyEligibleVoters tm).
Proof.
  intros Hnd. rewrite totalCrewGuns_sum.
  rewrite <- (gunsOfAll_players (game tm)) by done.
  apply gunsOfAll_ext. intros u _. by destruct (game tm).
Qed.

(** C1. [resolveMutiny] returns.  The guns used are the sum of the recorded
    vote submissions and, the players having distinct identities as the keys
    of a map have, the crew's guns are the sum of the eligible voters'
    current gun counts; the mutiny has succeeded (the flag [resolveMutiny]
    leaves, which selects the branch taken) exactly when the first sum
    reaches floor(second sum / 2) + 1, that is when it is more than half of
    the second.  With nine crew guns the threshold is 5: five guns succeed
    and four fail. *)
Theorem resolveMutiny_threshold (d : Dice) (tm : TurnManager) :
  let tm' := after (resolveMutiny d) tm in
  let used := Spec.submitted (mutinyVotes tm) in
  let crew := Spec.crewGuns (players (game tm)) (mutinyEligibleVoters tm) in
  returns (fst (resolveMutiny d tm)) = true ∧
  totalGunsUsed tm = used ∧
  (NoDup (userId <$> players (game tm)) →
     totalCrewGuns tm = crew ∧
     (lastMutinySucceeded tm' = true ↔ used >= crew / 2 + 1) ∧
     (crew = 9 →
        (used = 5 → lastMutinySucceeded tm' = true) ∧
        (used = 4 → lastMutinySucceeded tm' = false))) ∧
  (lastMutinySucceeded tm' = true ↔ totalGunsUsed tm >= totalCrewGuns tm / 2 + 1) ∧
  (lastMutinySucceeded tm' = mutinySucceeded tm) ∧
  (totalGunsUsed tm >= totalCrewGuns tm / 2 + 1 ↔ 2 * totalGunsUsed tm > totalCrewGuns tm) ∧
  (totalCrewGuns tm = 9 →
     mutinyThreshold tm = 5 ∧
     (totalGunsUsed tm = 5 → lastMutinySucceeded tm' = true) ∧
     (totalGunsUsed tm = 4 → lastMutinySucceeded tm' = false)).
Proof.
  intros tm' used crew. subst tm' used crew. unfold after.
  destruct (resolveMutiny_returns d tm) as (tm1 & E & Hflag & _).
  rewrite E. simpl. rewrite Hflag. unfold mutinySucceeded, mutinyThreshold.
  split; [done|]. split; [apply totalGunsUsed_submitted|].
  split; [|split; [|split; [done|split]]].
  - intros Hnd. rewrite <- totalGunsUsed_submitted, <- (totalCrewGuns_crewGuns tm Hnd).
    split; [done|]. split; [by rewrite bool_decide_eq_true|].
    intros ->. split; intros ->; reflexivity.
  - rewrite bool_decide_eq_true. done.
  - pose proof (Z.div_mod (totalCrewGuns tm) 2 ltac:(lia)).
    pose proof (Z.mod_pos_bound (totalCrewGuns tm) 2 ltac:(lia)). lia.
  - intros ->. split; [reflexivity|]. split; intros ->; reflexivity.
Qed.

(** The ballots 3, 2 and 0 against a crew of nine guns: five guns are
    submitted and the mutiny succeeds. *)
Lemma resolveMutiny_threshold_witness :
  let tm := Sample.fiveOfNine in
  Spec.submitted (mutinyVotes tm) = 5 ∧
  Spec.crewGuns (players (game tm)) (mutinyEligibleVoters tm) = 9 ∧
  lastMutinySucceeded (after (resolveMutiny Fixture.dice) tm) = true.
Proof.
  intros tm.
  assert (Hu : Spec.submitted (mutinyVotes tm) = 5) by (vm_compute; reflexivity).
  assert (Hc : Spec.crewGuns (players (game tm)) (mutinyEligibleVoters tm) = 9)
    by (vm_compute; reflexivity).
  assert (Hnd : NoDup (userId <$> players (game tm))).
  { apply (bool_decide_unpack _). vm_compute. exact I. }
  split; [exact Hu|]. split; [exact Hc|].
  destruct (resolveMutiny_threshold Fixture.dice tm) as (_ & _ & H & _).
  destruct (H Hnd) as (_ & _ & H9). destruct (H9 Hc) as [H5 _]. exact (H5 Hu).
Defined.

(** Nine crew guns: the votes 3, 2, 0 depose the captain, 2, 2, 0 do not;
    the third submission resolves the round in either case. *)
Example nine_guns_five_succeed :
  let tm := Scenario.vote "D" 0 (Scenario.vote "C" 2 (Scenario.vote "B" 3 Scenario.nineGuns)) in
  totalCrewGuns Scenario.nineGuns = 9 ∧ totalGunsUsed tm = 5 ∧
  lastMutinySucceeded tm = true ∧
  currentPhase (game tm) = NAVIGATION_SELECTION ∧ captain (game tm) = Some "B"%string.
Proof. vm_compute. repeat split; reflexivity. Qed.

Example nine_guns_four_fail :
  let tm := Scenario.vote "D" 0 (Scenario.vote "C" 2 (Scenario.vote "B" 2 Scenario.nineGuns)) in
  totalCrewGuns Scenario.nineGuns = 9 ∧ totalGunsUsed tm = 4 ∧
  lastMutinySucceeded tm = false ∧
  currentPhase (game tm) = NAVIGATION ∧ captain (game tm) = Some "A"%string.
Proof. vm_compute. repeat split; reflexivity. Qed.






(** All three voters hold three guns: each draw elects one of them. *)
Example election_tie_break :
  let tm := Scenario.vote "C" 2 (Scenario.vote "B" 3 Scenario.nineGuns) in
  let elected r :=
    captain (game (after (handleViewSubmission (withElection r Fixture.dice)
                            (mkView "mutiny_vote_modal" 0) "D") tm)) in
  elected 0%nat = Some "B"%string ∧ elected 1%nat = Some "C"%string ∧
  elected 2%nat = Some "D"%string ∧ elected 3%nat = Some "B"%string.
Proof. vm_compute. repeat split; reflexivity. Qed.

Lemma foldl_add_voters (s0 : gset string) (l : list Player) :
  foldl (λ voters p, {[userId p]} ∪ voters) s0 l = list_to_set (userId <$> l) ∪ s0.
Proof.
  revert s0. induction l as [|p l IH]; intros s0; simpl.
  - set_solver.
  - rewrite IH. set_solver.
Qed.

Lemma mutinyPhase_state tm :
  mutinyEligibleVoters (after mutinyPhase tm)
    = list_to_set (userId <$> crewExceptCaptain (game tm)) ∧
  mutinyVotes (after mutinyPhase tm) = ∅ ∧
  game (after mutinyPhase tm) = game tm.
Proof.
  unfold mutinyPhase. run_method. simpl.
  destruct (mutinyTimeoutId tm); simpl; rewrite foldl_add_voters;
    (split; [set_solver | done]).
Qed.

Lemma getPlayer_unique g p :
  NoDup (userId <$> players g) → p ∈ players g → getPlayer g (userId p) = Some p.
Proof.
  unfold getPlayer. generalize (players g). intros ps.
  induction ps as [|a ps IH]; intros Hnd Hp; [by apply elem_of_nil in Hp|].
  rewrite fmap_cons, NoDup_cons in Hnd. destruct Hnd as [Ha Hnd].
  simpl. destruct (decide (userId a = userId p)) as [E|E].
  - apply elem_of_cons in Hp as [->|Hp]; [done|].
    exfalso. apply Ha. rewrite E. by apply list_elem_of_fmap_2.
  - apply elem_of_cons in Hp as [->|Hp]; [done|].
    specialize (IH Hnd Hp). destruct (list_find _ ps) as [[i b]|]; simplify_eq/=. done.
Qed.

Lemma gunsHeld_sum ps : foldr Z.add 0 (guns <$> ps) = gunsHeld ps.
Proof. induction ps as [|p l IH]; simpl; [done|]. by rewrite <- IH. Qed.

(** On entering the round, the crew's guns are the guns held by the alive
    players other than the captain. *)
Lemma totalCrewGuns_at_entry tm :
  NoDup (userId <$> players (game tm)) →
  totalCrewGuns (after mutinyPhase tm) = gunsHeld (crewExceptCaptain (game tm)).
Proof.
  intros Hnd. destruct (mutinyPhase_state tm) as (He & _ & Hg).
  unfold totalCrewGuns. rewrite He, Hg, foldl_sum.
  set (crew := crewExceptCaptain (game tm)).
  assert (Hsub : crew `sublist_of` players (game tm)).
  { unfold crew, crewExceptCaptain, getAlivePlayers, getAllPlayers.
    etrans; apply sublist_filter. }
  assert (Hids : NoDup (userId <$> crew)).
  { eapply sublist_NoDup; [exact Hnd|]. by apply fmap_sublist. }
  assert (Hperm : gunsOf (game tm) <$> elements (list_to_set (userId <$> crew) : gset string)
                  ≡ₚ guns <$> crew).
  { rewrite elements_list_to_set by done. rewrite <- list_fmap_compose.
    erewrite list_fmap_ext; [reflexivity|]. intros i p Hp. simpl. unfold gunsOf.
    rewrite getPlayer_unique; [done|done|].
    apply list_elem_of_lookup_2 in Hp. unfold crew, crewExceptCaptain, getAlivePlayers in Hp.
    apply list_elem_of_filter in Hp as [_ Hp]. by apply list_elem_of_filter in Hp as [_ Hp]. }
  rewrite (sum_perm _ _ Hperm), gunsHeld_sum. lia.
Qed.

(** [handleViewSubmission] records what it is given, whoever submits. *)
Lemma handleViewSubmission_records d tm user n :
  mutinyVotes (after (handleViewSubmission d (mkView "mutiny_vote_modal" n) user) tm)
  = <[user := n]> (mutinyVotes tm).
Proof.
  unfold handleViewSubmission. rewrite decide_True by done. run_method. simpl.
  destruct (decide _); [|done].
  pose proof (resolveMutiny_votes d (set_mutinyVotes (<[user:=n]> (mutinyVotes tm)) tm)) as H.
  unfold after in H. destruct (resolveMutiny d _) as [c0 e0]. simpl in *. done.
Qed.

(** Against C6 as stated: in a mutiny round with captain "C", who is not an
    eligible voter and holds three guns, a submission of seven guns in the
    name of "C" is recorded. *)
Lemma captain_submission_recorded :
  let tm := Scenario.mutinyRound in
  let tm' := after (handleViewSubmission Fixture.dice (mkView "mutiny_vote_modal" 7) "C") tm in
  captain (game tm) = Some "C"%string ∧
  ("C"%string ∉ mutinyEligibleVoters tm) ∧
  gunsOf (game tm) "C" = 3 ∧
  mutinyVotes tm' !! "C"%string = Some 7.
Proof.
  repeat split; try reflexivity.
  vm_compute. intros H. discriminate.
Qed.

(** C6, amended.  The voters computed on entering the MUTINY phase are the
    alive players other than the captain, and no vote is recorded yet.  The
    gate is the request to vote ([cast_mutiny_vote]): from the captain it is
    answered with the captain-cannot-vote notice, from an unknown or dead
    player it is dropped, and in both cases no form is opened and nothing
    changes; for any other alive player a form is opened whose input is
    bounded by 0 and that player's current gun count.  The submission
    handler records the count it receives under the submitter's name. *)
Theorem mutiny_vote_gate (d : Dice) (tm : TurnManager) :
  (∀ u, u ∈ mutinyEligibleVoters (after mutinyPhase tm) ↔
        ∃ p, p ∈ players (game tm) ∧ userId p = u ∧ isAlive p = true ∧
             Some u ≠ captain (game tm)) ∧
  mutinyVotes (after mutinyPhase tm) = ∅ ∧
  (∀ u p, getPlayer (game tm) u = Some p → isAlive p = true →
          captain (game tm) = Some u →
     handleAction d cast_mutiny_vote u tm =
       (Normal tm, [postEphemeral (managerChannelId tm) (Some u) CaptainCannotVote])) ∧
  (∀ u, getPlayer (game tm) u = None ∨
        (∃ p, getPlayer (game tm) u = Some p ∧ isAlive p = false) →
     handleAction d cast_mutiny_vote u tm = (Normal tm, [])) ∧
  (∀ u p, getPlayer (game tm) u = Some p → isAlive p = true →
          captain (game tm) ≠ Some u →
     handleAction d cast_mutiny_vote u tm = (Normal tm, [viewsOpen u 0 (guns p)])) ∧
  (∀ u n, mutinyVotes (after (handleViewSubmission d (mkView "mutiny_vote_modal" n) u) tm)
          = <[u := n]> (mutinyVotes tm)).
Proof.
  destruct (mutinyPhase_state tm) as (He & Hv & _).
  split; [|split; [done|]]; [|split; [|split; [|split]]].
  - intros u. rewrite He, elem_of_list_to_set, list_elem_of_fmap.
    unfold crewExceptCaptain, getAlivePlayers, getAllPlayers.
    split.
    + intros (p & -> & Hp). rewrite !list_elem_of_filter in Hp. exists p. tauto.
    + intros (p & Hp & <- & Ha & Hc). exists p. rewrite !list_elem_of_filter. tauto.
  - intros u p Hp Ha Hc. unfold handleAction, openMutinyVoteModal, reading.
    rewrite Hp, Ha. simpl. by rewrite decide_True.
  - intros u [Hp | (p & Hp & Ha)]; unfold handleAction, openMutinyVoteModal, reading;
      rewrite Hp; [done|]. by rewrite Ha.
  - intros u p Hp Ha Hc. unfold handleAction, openMutinyVoteModal, reading.
    rewrite Hp, Ha. simpl. by rewrite decide_False.
  - intros u n. apply handleViewSubmission_records.
Qed.

End Mutiny.

(** ** Navigation *)

Section Navigation.
Import GameState Roles TurnManager.

Lemma randomSort_perm {A} (r : nat) (l : list A) : randomSort r l ≡ₚ l.
Proof.
  unfold randomSort. destruct (permutations l !! _) as [l'|] eqn:E; [|done].
  simpl. symmetry. apply permutations_Permutation. eapply list_elem_of_lookup_2; eauto.
Qed.

Lemma take_two_of_perm {A} (s c : list A) :
  s ≡ₚ c → NoDup c → (2 ≤ length c)%nat →
  ∃ a b, take 2 s = [a; b] ∧ a ≠ b ∧ a ∈ c ∧ b ∈ c.
Proof.
  intros Hp Hnd Hlen. rewrite <- Hp in Hnd, Hlen.
  destruct s as [|a [|b s]]; simpl in Hlen; try lia.
  exists a, b. split; [done|].
  apply NoDup_cons in Hnd as [Ha _]. rewrite not_elem_of_cons in Ha.
  split; [tauto|]. rewrite <- Hp. rewrite !elem_of_cons. tauto.
Qed.

(** A card shows two different cardinal directions, whatever the draw. *)
Lemma offered_two_cardinals (r : nat) :
  ∃ a b, movementOf <$> offeredDirections r = [a; b] ∧ a ≠ b ∧
         a ∈ cardinals ∧ b ∈ cardinals.
Proof.
  unfold offeredDirections. rewrite fmap_take.
  apply take_two_of_perm.
  - rewrite randomSort_perm. reflexivity.
  - unfold cardinals. compute_done.
  - simpl. lia.
Qed.

Lemma movement_eta (m : NavigationMovement) : mkMovement (dx m) (dy m) = m.
Proof. by destruct m. Qed.

(** C5. On entering NAVIGATION the captain and the lieutenant are each sent
    a card with exactly two different directions out of the four cardinal
    unit vectors.  For each of the three roles, the first submission by the
    holder of the role records the choice and locks the role, and a
    submission for a locked role is answered with the already-chosen notice
    and returns the controller unchanged: choices, locks, ship position and
    phase are what they were. *)
Theorem navigation_choices_lock (d : Dice) (tm : TurnManager) (user : string)
    (payload : NavigationMovement) :
  (∃ a b, movementOf <$> offeredDirections (captainCards d) = [a; b] ∧ a ≠ b ∧
          a ∈ cardinals ∧ b ∈ cardinals) ∧
  (∃ a b, movementOf <$> offeredDirections (lieutenantCards d) = [a; b] ∧ a ≠ b ∧
          a ∈ cardinals ∧ b ∈ cardinals) ∧
  sent (navigationPhase d) tm =
    [ postMessage (Some (managerChannelId tm)) NavigationNotice;
      postMessage (captain (game tm))
        (NavigationChoiceCards AsCaptain (movementOf <$> offeredDirections (captainCards d)));
      postMessage (lieutenant (game tm))
        (NavigationChoiceCards AsLieutenant
           (movementOf <$> offeredDirections (lieutenantCards d))) ] ∧
  (captainChoiceLocked tm = false → Some user = captain (game tm) →
     let tm' := after (handleAction d (nav_choice_captain payload) user) tm in
     captainChoiceLocked tm' = true ∧ captainNavigationChoice tm' = Some payload) ∧
  (lieutenantChoiceLocked tm = false → Some user = lieutenant (game tm) →
     let tm' := after (handleAction d (nav_choice_lieutenant payload) user) tm in
     lieutenantChoiceLocked tm' = true ∧ lieutenantNavigationChoice tm' = Some payload) ∧
  (navigatorChoiceLocked tm = false → Some user = navigator (game tm) →
     let tm' := after (handleAction d (navigate_final payload) user) tm in
     navigatorChoiceLocked tm' = true) ∧
  (captainChoiceLocked tm = true →
     handleAction d (nav_choice_captain payload) user tm =
       (Normal tm, [postEphemeral user (Some user) AlreadyMadeChoice])) ∧
  (lieutenantChoiceLocked tm = true →
     handleAction d (nav_choice_lieutenant payload) user tm =
       (Normal tm, [postEphemeral user (Some user) AlreadyMadeChoice])) ∧
  (navigatorChoiceLocked tm = true →
     handleAction d (navigate_final payload) user tm =
       (Normal tm, [postEphemeral user (Some user) AlreadyMadeChoice])).
Proof.
  split; [apply offered_two_cardinals|]. split; [apply offered_two_cardinals|].
  split; [reflexivity|].
  assert (Hnn : ∀ o : option string, Some user = o → ¬ Some user ≠ o)
    by (intros o E Hne; done).
  split; [|split; [|split; [|split; [|split]]]].
  - intros Hl Hu tm'. subst tm'. unfold handleAction, sendNavigatorFinalChoice. run_method.
    rewrite Hl, decide_False by auto. simpl. rewrite movement_eta.
    destruct (lieutenantNavigationChoice tm) eqn:E; simpl; rewrite ?E; done.
  - intros Hl Hu tm'. subst tm'. unfold handleAction, sendNavigatorFinalChoice. run_method.
    rewrite Hl, decide_False by auto. simpl. rewrite movement_eta.
    destruct (captainNavigationChoice tm) eqn:E; simpl; rewrite ?E; done.
  - intros Hl Hu tm'. subst tm'. unfold handleAction. run_method.
    rewrite Hl, decide_False by auto. simpl. done.
  - intros Hl. unfold handleAction, reading. by rewrite Hl.
  - intros Hl. unfold handleAction, reading. by rewrite Hl.
  - intros Hl. unfold handleAction, reading. by rewrite Hl.
Qed.

(** The proposal that completes the pair is recorded and both proposals are
    forwarded to the navigator. *)
Lemma second_proposal_forwards (d : Dice) (tm : TurnManager) (user : string)
    (payload other : NavigationMovement) :
  (captainChoiceLocked tm = false → Some user = captain (game tm) →
   lieutenantNavigationChoice tm = Some other →
   sent (handleAction d (nav_choice_captain payload) user) tm =
     [ postEphemeral user (Some user) (ChoiceRecorded payload);
       postMessage (navigator (game tm))
         (NavigatorFinalChoice [(AsCaptain, payload); (AsLieutenant, other)]);
       postMessage (Some (managerChannelId tm)) WaitingForNavigator ]) ∧
  (lieutenantChoiceLocked tm = false → Some user = lieutenant (game tm) →
   captainNavigationChoice tm = Some other →
   sent (handleAction d (nav_choice_lieutenant payload) user) tm =
     [ postEphemeral user (Some user) (ChoiceRecorded payload);
       postMessage (navigator (game tm))
         (NavigatorFinalChoice [(AsCaptain, other); (AsLieutenant, payload)]);
       postMessage (Some (managerChannelId tm)) WaitingForNavigator ]).
Proof.
  assert (Hnn : ∀ o : option string, Some user = o → ¬ Some user ≠ o)
    by (intros o E Hne; done).
  split; intros Hl Hu Ho;
    unfold handleAction, sendNavigatorFinalChoice, navigatorOptions; run_method;
    rewrite Hl, decide_False by auto; simpl; rewrite ?Ho, ?movement_eta; simpl;
    rewrite ?Ho; done.
Qed.

(** Against C4 as stated: both proposers are locked, on North and on East;
    the navigator's action carries West, and the ship moves West. *)
Lemma navigator_commit_unchecked :
  let tm := Scenario.roundWithProposals in
  let tm' := after (handleAction Fixture.dice (navigate_final (mkMovement (-1) 0)) "B") tm in
  currentPhase (game tm) = NAVIGATION ∧
  captainChoiceLocked tm = true ∧ lieutenantChoiceLocked tm = true ∧
  captainNavigationChoice tm = Some (mkMovement 0 1) ∧
  lieutenantNavigationChoice tm = Some (mkMovement 1 0) ∧
  navigator (game tm) = Some "B"%string ∧
  shipPosition (game tm) = mkPosition 0 0 ∧
  shipPosition (game tm') = mkPosition (-1) 0 ∧
  ¬ (shipPosition (game tm') = mkPosition 0 1 ∨ shipPosition (game tm') = mkPosition 1 0).
Proof. vm_compute. repeat split; try reflexivity. intros [H|H]; discriminate. Qed.

(** C4, amended.  Once both proposers have chosen, the options forwarded to
    the navigator are exactly the two proposed vectors, so a navigator who
    answers with one of the options forwarded commits one of the two
    proposals; the handler itself applies the vector its action carries.  On
    the navigator's commit the ship position becomes the previous position
    plus that vector, componentwise, the navigator is locked and the phase is
    VOTING. *)
Theorem navigator_commit (d : Dice) (tm : TurnManager) (user : string)
    (payload c l : NavigationMovement) :
  captainNavigationChoice tm = Some c →
  lieutenantNavigationChoice tm = Some l →
  navigatorChoiceLocked tm = false →
  Some user = navigator (game tm) →
  let tm' := after (handleAction d (navigate_final payload) user) tm in
  sent sendNavigatorFinalChoice tm =
    [ postMessage (navigator (game tm))
        (NavigatorFinalChoice [(AsCaptain, c); (AsLieutenant, l)]);
      postMessage (Some (managerChannelId tm)) WaitingForNavigator ] ∧
  (payload ∈ (navigatorOptions tm).*2 → payload = c ∨ payload = l) ∧
  shipPosition (game tm') =
    mkPosition (x (shipPosition (game tm)) + dx payload)
               (y (shipPosition (game tm)) + dy payload) ∧
  currentPhase (game tm') = VOTING ∧
  navigatorChoiceLocked tm' = true.
Proof.
  intros Hc Hl Hlock Hu tm'. subst tm'.
  split; [|split].
  - unfold sendNavigatorFinalChoice, navigatorOptions. run_method. rewrite Hc, Hl. done.
  - unfold navigatorOptions. rewrite Hc, Hl. simpl.
    rewrite !elem_of_cons, elem_of_nil. tauto.
  - unfold handleAction. run_method.
    rewrite Hlock, decide_False by (intros Hne; done). simpl. done.
Qed.

(** The navigator "B" commits the captain's proposal, North. *)
Lemma navigator_commit_witness :
  let tm := Scenario.roundWithProposals in
  let tm' := after (handleAction Fixture.dice (navigate_final (mkMovement 0 1)) "B") tm in
  shipPosition (game tm') = mkPosition 0 1 ∧ currentPhase (game tm') = VOTING.
Proof.
  pose proof (navigator_commit Fixture.dice Scenario.roundWithProposals "B"
                (mkMovement 0 1) (mkMovement 0 1) (mkMovement 1 0)
                eq_refl eq_refl eq_refl eq_refl) as (_ & _ & Hpos & Hph & _).
  split; [exact Hpos | exact Hph].
Defined.

End Navigation.

(** ** Turns *)

Section Turns.
Import GameState Roles TurnManager.

Lemma nextPhase_from_voting g :
  currentPhase g = VOTING →
  nextPhase g =
    rotateCaptain (set_currentPhase NAVIGATION_SELECTION
                     (set_currentTurn (currentTurn g + 1) g)).
Proof. intros H. unfold nextPhase. rewrite H. reflexivity. Qed.

(** C9. Out of VOTING, with a lieutenant and a navigator set (identities
    are not empty strings) and a player alive to take the captaincy,
    [startTurn] returns with the phase MUTINY and the same lieutenant and
    navigator; when either is missing the phase is NAVIGATION_SELECTION;
    the turn counter has gone up by one in both cases. *)
Theorem startTurn_after_voting (d : Dice) (tm : TurnManager) :
  currentPhase (game tm) = VOTING →
  let tm' := after (startTurn d) tm in
  (∀ l n, lieutenant (game tm) = Some l → navigator (game tm) = Some n →
          l ≠ EmptyString → n ≠ EmptyString → getAlivePlayers (game tm) ≠ [] →
     returns (fst (startTurn d tm)) = true ∧
     currentPhase (game tm') = MUTINY ∧
     currentTurn (game tm') = currentTurn (game tm) + 1 ∧
     lieutenant (game tm') = Some l ∧ navigator (game tm') = Some n) ∧
  (lieutenant (game tm) = None ∨ navigator (game tm) = None →
     currentPhase (game tm') = NAVIGATION_SELECTION ∧
     currentTurn (game tm') = currentTurn (game tm) + 1 ∧
     lieutenant (game tm') = lieutenant (game tm) ∧
     navigator (game tm') = navigator (game tm)).
Proof.
  intros Hph tm'. subst tm'. unfold after, startTurn, reading, andThenM, onGame.
  rewrite Hph, nextPhase_from_voting by done.
  set (g2 := set_currentPhase NAVIGATION_SELECTION _).
  pose proof (rotateCaptain_frame g2) as (Hps & Hp & Ht & Hl & Hn & _).
  split.
  - intros l n Hlt Hnv Hl0 Hn0 Halive.
    destruct (rotateCaptain_some_alive g2) as (p & _ & Hr); [done|].
    rewrite Hr in *. simpl in Hl, Hn, Hp |- *.
    rewrite Hlt, Hnv. simpl. rewrite !bool_decide_eq_false_2 by done. simpl.
    unfold TurnManager.onGameState, update. simpl.
    match goal with |- context [executePhase d ?t] =>
      destruct (executePhase_frame d t) as (tm1 & E1 & E2 & _);
      destruct (executePhase d t) as [c e] end.
    simpl in E1. subst c. simpl. rewrite E2. simpl. done.
  - intros Hnone.
    destruct (rotateCaptain g2) as [g3|g3] eqn:Hr; simpl in *; [|done].
    rewrite Hl, Hn, Hp.
    replace (truthy (lieutenant (game tm)) && truthy (navigator (game tm))) with false
      by (destruct Hnone as [-> | ->]; simpl; [done | by rewrite andb_false_r]).
    simpl. unfold skip.
    match goal with |- context [executePhase d ?t] =>
      destruct (executePhase_frame d t) as (tm1 & E1 & E2 & _);
      destruct (executePhase d t) as [c e] end.
    simpl in E1. subst c. simpl. rewrite E2. simpl. done.
Qed.

(** After a discussion with the team "A", "B" in place the next turn opens
    on the mutiny. *)
Lemma startTurn_after_voting_witness :
  currentPhase (game Scenario.discussion) = VOTING ∧
  currentPhase (game (after (startTurn Fixture.dice) Scenario.discussion)) = MUTINY.
Proof.
  split; [reflexivity|].
  destruct (startTurn_after_voting Fixture.dice Scenario.discussion eq_refl) as [H _].
  destruct (H "A"%string "B"%string eq_refl eq_refl) as (_ & Hph & _);
    [discriminate | discriminate | discriminate | exact Hph].
Defined.

(** A full turn of the fixture: the mutiny fails, the ship moves North by
    one, and the second turn opens on the mutiny since the team persists. *)
Example full_turn :
  (λ tm, (currentPhase (game tm), currentTurn (game tm), shipPosition (game tm)))
    <$> Scenario.fullTurn
  = [ (MUTINY, 1, mkPosition 0 0); (NAVIGATION, 1, mkPosition 0 0);
      (NAVIGATION, 1, mkPosition 0 0); (VOTING, 1, mkPosition 0 1);
      (MUTINY, 2, mkPosition 0 1) ].
Proof. vm_compute. reflexivity. Qed.

End Turns.

(** ** Joining *)

Section Joining.
Import GameState Roles TurnManager.
Implicit Types (g : GameState) (p q : Player) (u v : string) (ps : list Player).

Lemma getPlayer_app_new g u name :
  getPlayer g u = None →
  getPlayer (set_players (players g ++ [recruit u name]) g) u = Some (recruit u name).
Proof.
  unfold getPlayer. simpl. intros H.
  destruct (list_find _ (players g)) as [[i p]|] eqn:E; [done|].
  rewrite list_find_app_r by done. simpl. rewrite decide_True by done. done.
Qed.

Lemma getPlayer_app_other g u v name :
  v ≠ u →
  getPlayer (set_players (players g ++ [recruit u name]) g) v = getPlayer g v.
Proof.
  unfold getPlayer. simpl. intros H.
  destruct (list_find (λ p, userId p = v) (players g)) as [[i p]|] eqn:E.
  - by rewrite (list_find_app_l _ _ _ _ _ E).
  - rewrite list_find_app_r by done. simpl. by rewrite decide_False.
Qed.

Lemma has_false g u : has g u = false ↔ getPlayer g u = None.
Proof.
  unfold has. rewrite bool_decide_eq_false, <- eq_None_not_Some. done.
Qed.

Lemma addPlayer_fresh g u name :
  status g = WAITING → getPlayer g u = None →
  addPlayer u name g = (true, set_players (players g ++ [recruit u name]) g).
Proof.
  intros Hs Hu. unfold addPlayer.
  rewrite (proj2 (has_false g u) Hu), Hs. by rewrite bool_decide_eq_false_2 by (by intros H).
Qed.

Lemma addPlayer_rejected g u name :
  getPlayer g u ≠ None ∨ status g ≠ WAITING → addPlayer u name g = (false, g).
Proof.
  intros H. unfold addPlayer. destruct (has g u) eqn:Hh; [done|].
  apply has_false in Hh. destruct H as [H|H]; [done|]. by rewrite bool_decide_eq_true_2.
Qed.

(** X1. While the game is WAITING, [addPlayer] of an identity that is not yet in
    the session succeeds: the player is appended at the end of the join
    order, alive, with three guns and no role; the lookups of the other
    identities and every other field of the session are unchanged, and the
    player count goes up by one. *)
Theorem addPlayer_joins g u name :
  status g = WAITING → getPlayer g u = None →
  ∃ g', addPlayer u name g = (true, g') ∧
    players g' = players g ++ [recruit u name] ∧
    getPlayer g' u = Some (recruit u name) ∧
    (∀ v, v ≠ u → getPlayer g' v = getPlayer g v) ∧
    getPlayerCount g' = S (getPlayerCount g) ∧
    g' = set_players (players g') g.
Proof.
  intros Hs Hu. unfold addPlayer.
  rewrite (proj2 (has_false g u) Hu), Hs. rewrite bool_decide_eq_false_2 by (by intros H).
  eexists. split; [reflexivity|]. split; [done|].
  split; [by apply getPlayer_app_new|]. split; [intros; by apply getPlayer_app_other|].
  split; [|done]. unfold getPlayerCount. simpl. rewrite length_app. simpl. lia.
Qed.

(** "B" joins the new game of "A". *)
Lemma addPlayer_joins_witness :
  ∃ g', addPlayer "B" "Player" (GameState.new "channel" "A") = (true, g') ∧
        getPlayerCount g' = 1%nat.
Proof.
  destruct (addPlayer_joins (GameState.new "channel" "A") "B" "Player" eq_refl eq_refl)
    as (g' & E & _ & _ & _ & Hn & _).
  exists g'. split; [exact E | exact Hn].
Defined.

(** X2. [addPlayer] of an identity that has just been added fails and changes
    nothing, whatever the earlier call did; and [addPlayer] fails without
    any change when the identity is already in the session or the status is
    not WAITING. *)
Theorem addPlayer_again g u name name' :
  let g1 := (addPlayer u name g).2 in
  addPlayer u name' g1 = (false, g1) ∧
  (getPlayer g u ≠ None ∨ status g ≠ WAITING → addPlayer u name g = (false, g)).
Proof.
  unfold addPlayer. destruct (has g u) eqn:Hh.
  - simpl. rewrite Hh. split; [done|]. done.
  - apply has_false in Hh. destruct (bool_decide (status g ≠ WAITING)) eqn:Hs.
    + simpl. rewrite (proj2 (has_false g u) Hh), Hs. done.
    + simpl. split.
      * assert (Hin : has (set_players (players g ++ [recruit u name]) g) u = true).
        { unfold has. apply bool_decide_eq_true. rewrite getPlayer_app_new by done. eauto. }
        fold (recruit u name). by rewrite Hin.
      * apply bool_decide_eq_false in Hs. intros [H|H]; [done|]. exfalso. by apply Hs.
Qed.
End Joining.

Section JoiningAll.
Import GameState Roles TurnManager.
Implicit Types (g : GameState) (p q : Player) (u v : string) (ps : list Player).

Lemma getPlayer_None g u : getPlayer g u = None ↔ u ∉ userId <$> players g.
Proof.
  unfold getPlayer. rewrite fmap_None, list_find_None, Forall_forall.
  rewrite list_elem_of_fmap. split.
  - intros H (p & -> & Hp). by apply (H p).
  - intros H p Hp E. apply H. eauto.
Qed.

Lemma addPlayer_inLobby g u name :
  inLobby g →
  inLobby (addPlayer u name g).2 ∧
  ∀ v, v ∈ userId <$> players (addPlayer u name g).2 ↔ v = u ∨ v ∈ userId <$> players g.
Proof.
  intros (Hnd & Hall & Hs & Hp & Hc & Ht).
  destruct (getPlayer g u) as [p|] eqn:Hu.
  - rewrite addPlayer_rejected by (left; congruence). simpl. split; [done|]. intros v. split; [auto|]. intros [->|H]; [|done].
    destruct (decide (u ∈ userId <$> players g)) as [H|H]; [done|].
    apply getPlayer_None in H. congruence.
  - rewrite addPlayer_fresh by done. unfold inLobby. simpl. split.
    + split; [|split; [|done]].
      * rewrite fmap_app. apply NoDup_app. split; [done|]. split.
        -- intros x Hx ->%list_elem_of_singleton. by apply getPlayer_None in Hu.
        -- apply NoDup_singleton.
      * apply Forall_app. split; [done|]. by apply Forall_singleton.
    + intros v. rewrite fmap_app, elem_of_app. simpl. rewrite list_elem_of_singleton. tauto.
Qed.

Lemma joinAll_inLobby requests g :
  inLobby g →
  inLobby (joinAll requests g) ∧
  ∀ v, v ∈ userId <$> players (joinAll requests g)
       ↔ v ∈ requests.*1 ∨ v ∈ userId <$> players g.
Proof.
  revert g. induction requests as [|[u name] requests IH]; intros g Hg.
  - simpl. split; [done|]. intros v. rewrite elem_of_nil. tauto.
  - destruct (addPlayer_inLobby g u name Hg) as [H1 H2].
    destruct (IH _ H1) as [H3 H4]. split; [exact H3|].
    intros v. change (joinAll ((u, name) :: requests) g)
      with (joinAll requests (addPlayer u name g).2).
    rewrite H4, H2, fmap_cons, elem_of_cons. simpl. tauto.
Qed.

(** X3. Any sequence of join requests to a new session leaves distinct
    identities, exactly the requested ones, every player alive with three
    guns and no role, the status WAITING and no captain; the count is the
    number of distinct identities requested, and [canStart] holds exactly
    when there are five or more. *)
Theorem lobby_after_joins (channel host : string) (requests : list (string * string)) :
  let g := joinAll requests (GameState.new channel host) in
  NoDup (userId <$> players g) ∧
  (∀ u, u ∈ userId <$> players g ↔ u ∈ requests.*1) ∧
  Forall (λ p, isAlive p = true ∧ guns p = 3 ∧ role p = None) (players g) ∧
  status g = WAITING ∧ captain g = None ∧
  getPlayerCount g = length (remove_dups requests.*1) ∧
  canStart g = bool_decide (5 ≤ length (remove_dups requests.*1))%nat.
Proof.
  intros g.
  destruct (joinAll_inLobby requests (GameState.new channel host)) as [Hin Hids].
  { repeat split; try done. apply NoDup_nil_2. }
  fold g in Hin, Hids. destruct Hin as (Hnd & Hall & Hs & Hp & Hc & Ht).
  assert (Hmem : ∀ u, u ∈ userId <$> players g ↔ u ∈ requests.*1).
  { intros u. rewrite Hids. simpl. rewrite elem_of_nil. tauto. }
  assert (Hlen : getPlayerCount g = length (remove_dups requests.*1)).
  { unfold getPlayerCount. rewrite <- (length_fmap userId). apply Permutation_length.
    apply NoDup_Permutation; [done | apply NoDup_remove_dups|].
    intros u. rewrite elem_of_remove_dups. apply Hmem. }
  repeat split; try done.
  - by apply Hmem.
  - by apply Hmem.
  - unfold canStart. unfold getPlayerCount in Hlen. rewrite Hlen, Hs.
    rewrite (bool_decide_eq_true_2 (WAITING = WAITING)) by done. by rewrite andb_true_r.
Qed.

End JoiningAll.

(** ** Starting a game *)

Section Starting.
Import GameState Roles TurnManager.
Implicit Types (g : GameState) (p q : Player) (u v : string) (ps : list Player).

Lemma sameSession_refl g : sameSession g g.
Proof. by repeat split. Qed.

Lemma sameSession_trans g1 g2 g3 :
  sameSession g1 g2 → sameSession g2 g3 → sameSession g1 g3.
Proof.
  unfold sameSession. intros H1 H2. destruct_and!. repeat split; congruence.
Qed.

Lemma assignRoleTo_foldl_same r g (A : list nat) :
  sameSession g (foldl (λ g ref, assignRoleTo r ref g) g A).
Proof.
  revert g. induction A as [|a A IH]; intros g; [apply sameSession_refl|].
  simpl. eapply sameSession_trans; [|apply IH]. by repeat split.
Qed.

Lemma setRoles_isAlive assigned ps : isAlive <$> setRoles assigned ps = isAlive <$> ps.
Proof.
  revert ps. induction assigned as [|a l IH]; intros ps; [done|].
  unfold setRoles in *. simpl. rewrite IH.
  rewrite (list_fmap_alter isAlive (set_role a.2) id) by (by apply Forall_true).
  by apply list_alter_id.
Qed.

Lemma setRoles_guns assigned ps : guns <$> setRoles assigned ps = guns <$> ps.
Proof.
  revert ps. induction assigned as [|a l IH]; intros ps; [done|].
  unfold setRoles in *. simpl. rewrite IH.
  rewrite (list_fmap_alter guns (set_role a.2) id) by (by apply Forall_true).
  by apply list_alter_id.
Qed.

(** With five players or more [assignRoles] returns a session that differs
    in its roles and its cult leader only, each position written once. *)
Lemma assignRoles_returns rand g :
  (5 ≤ length (players g))%nat →
  ∃ g' assigned, assignRoles rand g = Normal g' ∧ sameSession g g' ∧
    players g' = setRoles assigned (players g) ∧
    assigned.*1 ≡ₚ seq 0 (length (players g)).
Proof.
  intros Hn. unfold assignRoles.
  set (n := length (players g)) in *.
  destruct (roleCounts_fit n Hn) as [-> Hfit].
  set (arr := shuffle rand (seq 0 n)).
  assert (Harr : arr ≡ₚ seq 0 n) by apply shuffle_perm.
  assert (Hlen : length arr = n) by (by rewrite Harr, length_seq).
  set (pc := Spec.pirates n) in *. set (cc := Spec.cultists n) in *.
  rewrite assignLoop_normal by lia. cbn [andThen].
  rewrite assignLoop_normal by lia. cbn [andThen].
  rewrite assignLoop_normal by lia. cbn [andThen].
  cbn [fst snd]. rewrite assignLoop_normal by lia.
  cbn [fst snd].
  set (A0 := take 1 (drop 0 arr)). set (A1 := take pc (drop (0 + 1) arr)).
  set (A2 := take cc (drop (0 + 1 + pc) arr)).
  set (A3 := take (length arr - (0 + 1 + pc + cc)) (drop (0 + 1 + pc + cc) arr)).
  assert (Hseg : A0 ++ A1 ++ A2 ++ A3 = arr) by apply (segments arr 1 pc cc).
  destruct (lookup_lt_is_Some_2 arr 0) as [a0 Ha0]; [lia|].
  assert (HA0 : A0 = [a0]).
  { subst A0. rewrite drop_0. destruct arr; simplify_eq/=. by rewrite take_0. }
  set (g0 := foldl (λ g ref, assignCultLeaderTo ref g) g A0).
  assert (Hg0 : players g0 = setRoles ((λ ref, (ref, CULT_LEADER)) <$> A0) (players g)
                ∧ sameSession g g0).
  { subst g0. rewrite HA0. simpl. split; [done|]. by repeat split. }
  destruct Hg0 as [Hp0 Hs0].
  set (g1 := foldl _ g0 A1). destruct (assignRoleTo_foldl PIRATE g0 A1) as [Hp1 _].
  pose proof (assignRoleTo_foldl_same PIRATE g0 A1) as Hs1. fold g1 in Hp1, Hs1.
  set (g2 := foldl _ g1 A2). destruct (assignRoleTo_foldl CULTIST g1 A2) as [Hp2 _].
  pose proof (assignRoleTo_foldl_same CULTIST g1 A2) as Hs2. fold g2 in Hp2, Hs2.
  set (g3 := foldl _ g2 A3). destruct (assignRoleTo_foldl SAILOR g2 A3) as [Hp3 _].
  pose proof (assignRoleTo_foldl_same SAILOR g2 A3) as Hs3. fold g3 in Hp3, Hs3.
  set (assigned := ((λ ref, (ref, CULT_LEADER)) <$> A0) ++ ((λ ref, (ref, PIRATE)) <$> A1)
        ++ ((λ ref, (ref, CULTIST)) <$> A2) ++ ((λ ref, (ref, SAILOR)) <$> A3)).
  exists g3, assigned. split; [done|]. split.
  { eapply sameSession_trans; [exact Hs0|]. eapply sameSession_trans; [exact Hs1|].
    eapply sameSession_trans; [exact Hs2|exact Hs3]. }
  split.
  { subst assigned. rewrite !setRoles_app. congruence. }
  subst assigned. rewrite !fmap_app, <- !list_fmap_compose.
  rewrite !(list_fmap_ext (fst ∘ _) id) by done. rewrite !list_fmap_id.
  by rewrite Hseg.
Qed.

Lemma canStart_true g :
  canStart g = true ↔ (5 ≤ length (players g))%nat ∧ status g = WAITING.
Proof.
  unfold canStart. rewrite andb_true_iff, !bool_decide_eq_true. done.
Qed.

Lemma assignCaptain_same r g : sameSession (set_captain (captain (assignCaptain r g)) g) (assignCaptain r g).
Proof.
  unfold assignCaptain. destruct (decide _); [|by repeat split].
  destruct (_ !! _); by repeat split.
Qed.

Lemma assignCaptain_picks r g :
  getAlivePlayers g ≠ [] →
  ∃ p, p ∈ getAlivePlayers g ∧ assignCaptain r g = set_captain (Some (userId p)) g.
Proof.
  intros Hne.
  assert (Hlen : (0 < length (getAlivePlayers g))%nat).
  { destruct (getAlivePlayers g); [done | simpl; lia]. }
  unfold assignCaptain. rewrite decide_True by done.
  destruct (lookup_lt_is_Some_2 (getAlivePlayers g) (r mod length (getAlivePlayers g))%nat)
    as [p Hp]; [apply Nat.mod_upper_bound; lia|].
  rewrite Hp. exists p. split; [|done]. by apply list_elem_of_lookup_2 in Hp.
Qed.

Lemma alive_fmap ps ps' :
  isAlive <$> ps' = isAlive <$> ps →
  filter (λ p, isAlive p = true) ps ≠ [] → filter (λ p, isAlive p = true) ps' ≠ [].
Proof.
  intros Heq Hne.
  destruct (filter _ ps) as [|a l] eqn:E; [done|]. clear Hne.
  assert (Ha : a ∈ filter (λ p, isAlive p = true) ps) by (rewrite E; left).
  apply list_elem_of_filter in Ha as [Ha Hin].
  assert (Ht : true ∈ isAlive <$> ps').
  { rewrite Heq, <- Ha. by apply list_elem_of_fmap_2. }
  apply list_elem_of_fmap in Ht as (b & Hb & Hbin).
  intros Hnil.
  assert (Hbf : b ∈ filter (λ p, isAlive p = true) ps') by (by apply list_elem_of_filter).
  rewrite Hnil in Hbf. by apply elem_of_nil in Hbf.
Qed.

(** [start] on a session that can start. *)
Lemma start_returns rand r g :
  canStart g = true →
  ∃ g', start rand r g = Normal g' ∧
    status g' = IN_PROGRESS ∧ currentPhase g' = NIGHT ∧
    currentTurn g' = currentTurn g ∧ channelId g' = channelId g ∧ hostId g' = hostId g ∧
    lieutenant g' = lieutenant g ∧ navigator g' = navigator g ∧
    shipPosition g' = shipPosition g ∧
    userId <$> players g' = userId <$> players g ∧
    isAlive <$> players g' = isAlive <$> players g ∧
    guns <$> players g' = guns <$> players g ∧
    (∀ q, q ∈ players g' → is_Some (role q)) ∧
    (getAlivePlayers g ≠ [] →
       ∃ p, p ∈ getAlivePlayers g' ∧ captain g' = Some (userId p)).
Proof.
  intros H. unfold start. rewrite H. simpl.
  apply canStart_true in H as [Hn Hs].
  set (g0 := set_currentPhase NIGHT (set_status IN_PROGRESS g)).
  destruct (assignRoles_returns rand g0 Hn) as (g1 & assigned & -> & Hsame & Hps & Hperm).
  destruct Hsame as (Hch & Hh & Hst & Ht & Hph & Hc & Hl & Hnv & Hsp).
  pose proof (assignCaptain_same r g1) as (Hch' & Hh' & Hst' & Ht' & Hph' & _ & Hl' & Hnv' & Hsp').
  simpl in *.
  assert (Hfp : players (assignCaptain r g1) = players g1).
  { unfold assignCaptain. destruct (decide _); [|done]. by destruct (_ !! _). }
  eexists. split; [reflexivity|].
  rewrite Hfp, Hps, setRoles_userIds, setRoles_isAlive, setRoles_guns.
  repeat split; try congruence.
  - intros q Hq.
    assert (Hr : role q ∈ role <$> setRoles assigned (players g0))
      by (by apply list_elem_of_fmap_2).
    rewrite (setRoles_roles assigned (players g0) Hperm) in Hr.
    apply list_elem_of_fmap in Hr as (x & -> & _). eauto.
  - intros Halive.
    assert (Hne : getAlivePlayers g1 ≠ []).
    { unfold getAlivePlayers, getAllPlayers in *. rewrite Hps.
      apply (alive_fmap (players g)); [|done]. by rewrite setRoles_isAlive. }
    destruct (assignCaptain_picks r g1 Hne) as (p & Hp & E).
    exists p. rewrite E. split; [exact Hp|done].
Qed.

(** X4. [assignCaptain] leaves the session unchanged when nobody is alive.
    Otherwise every draw makes an alive player captain and changes nothing
    else, and every alive player is the outcome of some draw below the
    number of alive players. *)
Theorem assignCaptain_draw g :
  (getAlivePlayers g = [] → ∀ r, assignCaptain r g = g) ∧
  (getAlivePlayers g ≠ [] →
     (∀ r, ∃ p, p ∈ players g ∧ isAlive p = true ∧
                assignCaptain r g = set_captain (Some (userId p)) g) ∧
     (∀ p, p ∈ players g → isAlive p = true →
           ∃ r, (r < length (getAlivePlayers g))%nat ∧
                assignCaptain r g = set_captain (Some (userId p)) g)).
Proof.
  split.
  - intros H r. unfold assignCaptain. rewrite H. done.
  - intros Hne.
    assert (Hlen : (0 < length (getAlivePlayers g))%nat).
    { destruct (getAlivePlayers g); [done | simpl; lia]. }
    split.
    + intros r. unfold assignCaptain. rewrite decide_True by done.
      destruct (lookup_lt_is_Some_2 (getAlivePlayers g) (r mod length (getAlivePlayers g))%nat)
        as [p Hp]; [apply Nat.mod_upper_bound; lia|].
      rewrite Hp. exists p. apply list_elem_of_lookup_2 in Hp.
      unfold getAlivePlayers, getAllPlayers in Hp. apply list_elem_of_filter in Hp. tauto.
    + intros p Hp Ha.
      assert (Hin : p ∈ getAlivePlayers g).
      { unfold getAlivePlayers, getAllPlayers. by apply list_elem_of_filter. }
      apply list_elem_of_lookup in Hin as [i Hi]. exists i.
      pose proof (lookup_lt_Some _ _ _ Hi) as Hlt. split; [done|].
      unfold assignCaptain. rewrite decide_True by done.
      rewrite Nat.mod_small by done. by rewrite Hi.
Qed.

(** X5. [start] throws without any change when [canStart] fails.  Otherwise it
    returns with the status IN_PROGRESS and the phase NIGHT, the turn
    counter, the identities, the liveness and the guns as before, a role on
    every player and, if anyone is alive, an alive player as captain; a
    second [start] then throws. *)
Theorem start_begins (rand : nat → nat) (r : nat) g :
  (canStart g = false → start rand r g = Thrown g) ∧
  (canStart g = true →
     ∃ g', start rand r g = Normal g' ∧
       status g' = IN_PROGRESS ∧ currentPhase g' = NIGHT ∧
       currentTurn g' = currentTurn g ∧
       userId <$> players g' = userId <$> players g ∧
       isAlive <$> players g' = isAlive <$> players g ∧
       guns <$> players g' = guns <$> players g ∧
       (∀ q, q ∈ players g' → is_Some (role q)) ∧
       (getAlivePlayers g ≠ [] →
          ∃ p, p ∈ players g' ∧ isAlive p = true ∧ captain g' = Some (userId p)) ∧
       (∀ rand' r', start rand' r' g' = Thrown g')).
Proof.
  split.
  - intros H. unfold start. by rewrite H.
  - intros H.
    destruct (start_returns rand r g H)
      as (g' & E & Hst & Hph & Ht & _ & _ & _ & _ & _ & Hids & Hal & Hgu & Hroles & Hcap).
    exists g'. repeat split; try done.
    + intros Halive. destruct (Hcap Halive) as (p & Hp & Hc).
      unfold getAlivePlayers, getAllPlayers in Hp. apply list_elem_of_filter in Hp as [Ha Hp].
      eauto.
    + intros rand' r'. unfold start.
      replace (canStart g') with false; [done|].
      symmetry. unfold canStart. rewrite Hst. simpl. by rewrite andb_false_r.
Qed.
End Starting.

(** ** The captaincy going round *)

Section RoundRobin.
Import GameState Roles TurnManager.
Implicit Types (g : GameState) (p q : Player) (u v : string) (ps : list Player).

Lemma alive_ids_NoDup g :
  NoDup (userId <$> players g) → NoDup (userId <$> getAlivePlayers g).
Proof.
  intros H. eapply sublist_NoDup; [exact H|]. apply fmap_sublist, sublist_filter.
Qed.

Lemma set_captain_same g : set_captain (captain g) g = g.
Proof. by destruct g. Qed.

(** One rotation seen on the array of alive players: from position [i] to
    position [i + 1], wrapping. *)
Lemma rotateCaptain_step g i p :
  NoDup (userId <$> getAlivePlayers g) →
  getAlivePlayers g !! i = Some p →
  captain g = Some (userId p) →
  rotateCaptain g =
    Normal (set_captain
              (userId <$> getAlivePlayers g !! ((i + 1) mod length (getAlivePlayers g))%nat) g).
Proof.
  intros Hnd Hi Hc. unfold rotateCaptain.
  set (alive := getAlivePlayers g) in *.
  pose proof (lookup_lt_Some _ _ _ Hi) as Hlt.
  assert (Hidx : findIndex (λ q, Some (userId q) = captain g) alive = Z.of_nat i).
  { unfold findIndex.
    assert (Hf : list_find (λ q, Some (userId q) = captain g) alive = Some (i, p)).
    { apply list_find_Some. split; [done|]. split; [by rewrite Hc|].
      intros j y Hj Hji Hy. rewrite Hc in Hy. injection Hy as Hy.
      assert (j = i); [|lia].
      eapply (NoDup_lookup (userId <$> alive)); [done| |].
      - rewrite list_lookup_fmap, Hj. simpl. by rewrite Hy.
      - by rewrite list_lookup_fmap, Hi. }
    by rewrite Hf. }
  rewrite Hidx, decide_False by lia.
  rewrite Z.rem_mod_nonneg by lia.
  replace (Z.of_nat i + 1) with (Z.of_nat (i + 1)) by lia.
  rewrite <- Nat2Z.inj_mod, Nat2Z.id.
  destruct (lookup_lt_is_Some_2 alive ((i + 1) mod length alive)%nat) as [q Hq].
  { apply Nat.mod_upper_bound. lia. }
  rewrite Hq. done.
Qed.

Lemma rotations_position g i p m :
  NoDup (userId <$> getAlivePlayers g) →
  getAlivePlayers g !! i = Some p →
  captain g = Some (userId p) →
  repeatedly rotateCaptain m g =
    Normal (set_captain
              (userId <$> getAlivePlayers g !! ((i + m) mod length (getAlivePlayers g))%nat) g).
Proof.
  intros Hnd Hi Hc. pose proof (lookup_lt_Some _ _ _ Hi) as Hlt.
  induction m as [|m IH].
  - simpl. rewrite Nat.add_0_r, Nat.mod_small, Hi by done. simpl.
    by rewrite <- Hc, set_captain_same.
  - cbn [repeatedly]. rewrite IH. cbn [andThen].
    set (n := length (getAlivePlayers g)) in *.
    destruct (lookup_lt_is_Some_2 (getAlivePlayers g) ((i + m) mod n)%nat) as [q Hq].
    { apply Nat.mod_upper_bound. lia. }
    rewrite Hq. simpl.
    rewrite (rotateCaptain_step _ ((i + m) mod n)%nat q); [|done..].
    change (getAlivePlayers (set_captain (Some (userId q)) g)) with (getAlivePlayers g).
    fold n. replace (((i + m) mod n + 1) mod n)%nat with ((i + S m) mod n)%nat.
    + done.
    + rewrite Nat.Div0.add_mod_idemp_l. f_equal. lia.
Qed.

(** X6. With distinct identities and the captain alive, as many rotations as
    there are alive players bring the captaincy back to where it was,
    leaving the session as it started, and every alive player is captain
    after fewer rotations than that. *)
Theorem rotateCaptain_round_robin g u p :
  NoDup (userId <$> players g) →
  captain g = Some u →
  getPlayer g u = Some p →
  isAlive p = true →
  repeatedly rotateCaptain (length (getAlivePlayers g)) g = Normal g ∧
  (∀ q, q ∈ players g → isAlive q = true →
        ∃ m, (m < length (getAlivePlayers g))%nat ∧
             repeatedly rotateCaptain m g = Normal (set_captain (Some (userId q)) g)).
Proof.
  intros Hnd Hc Hg Ha.
  assert (Hnda := alive_ids_NoDup g Hnd).
  assert (Hu : userId p = u ∧ p ∈ players g).
  { unfold getPlayer in Hg. destruct (list_find _ _) as [[i p']|] eqn:E; simplify_eq/=.
    apply list_find_Some in E as (Hi & Hu & _). split; [done|].
    eapply list_elem_of_lookup_2; eauto. }
  destruct Hu as [<- Hp].
  assert (Hin : p ∈ getAlivePlayers g).
  { unfold getAlivePlayers, getAllPlayers. by apply list_elem_of_filter. }
  apply list_elem_of_lookup in Hin as [i Hi].
  pose proof (lookup_lt_Some _ _ _ Hi) as Hlt.
  set (n := length (getAlivePlayers g)) in *.
  split.
  - rewrite (rotations_position g i p n) by done. fold n.
    replace ((i + n) mod n)%nat with i.
    + rewrite Hi. simpl. by rewrite <- Hc, set_captain_same.
    + replace (i + n)%nat with (i + 1 * n)%nat by lia. rewrite Nat.Div0.mod_add.
      symmetry. by apply Nat.mod_small.
  - intros q Hq Hqa.
    assert (Hqin : q ∈ getAlivePlayers g).
    { unfold getAlivePlayers, getAllPlayers. by apply list_elem_of_filter. }
    apply list_elem_of_lookup in Hqin as [j Hj].
    pose proof (lookup_lt_Some _ _ _ Hj) as Hjlt. fold n in Hjlt.
    exists ((j + n - i) mod n)%nat. split; [apply Nat.mod_upper_bound; lia|].
    rewrite (rotations_position g i p) by done. fold n.
    replace ((i + (j + n - i) mod n) mod n)%nat with j.
    + by rewrite Hj.
    + rewrite Nat.Div0.add_mod_idemp_r.
      replace (i + (j + n - i))%nat with (j + 1 * n)%nat by lia.
      rewrite Nat.Div0.mod_add. symmetry. by apply Nat.mod_small.
Qed.

(** Five rotations among the five players of the fixture. *)
Lemma rotateCaptain_round_robin_witness :
  let g := Fixture.session Fixture.five NAVIGATION_SELECTION "C" in
  repeatedly rotateCaptain 5 g = Normal g.
Proof.
  assert (Hnd : NoDup (userId <$> players
                         (Fixture.session Fixture.five NAVIGATION_SELECTION "C"))).
  { apply (bool_decide_unpack _). vm_compute. exact I. }
  exact (proj1 (rotateCaptain_round_robin _ "C" (Fixture.crew "C" true 3)
                  Hnd eq_refl eq_refl eq_refl)).
Defined.

(** X7. When the captain is not among the alive players (dead, absent or
    unset), [rotateCaptain] makes the first alive player in join order
    captain, and throws when nobody is alive. *)
Theorem rotateCaptain_stale_captain g :
  (∀ p, p ∈ players g → isAlive p = true → Some (userId p) ≠ captain g) →
  rotateCaptain g =
    match head (getAlivePlayers g) with
    | Some q => Normal (set_captain (Some (userId q)) g)
    | None => Thrown g
    end.
Proof.
  intros H. unfold rotateCaptain.
  assert (Hidx : findIndex (λ q, Some (userId q) = captain g) (getAlivePlayers g) = -1).
  { unfold findIndex. destruct (list_find _ _) as [[i q]|] eqn:Hf; [|done].
    apply list_find_Some in Hf as (Hi & Hq & _).
    apply list_elem_of_lookup_2 in Hi. unfold getAlivePlayers, getAllPlayers in Hi.
    apply list_elem_of_filter in Hi as [Ha Hi]. by destruct (H q Hi Ha). }
  rewrite Hidx. destruct (getAlivePlayers g) as [|q l]; [done|].
  rewrite decide_False by done. simpl length. rewrite Z.rem_0_l by lia. done.
Qed.

(** With the captain "E" dead the captaincy goes to "A". *)
Lemma rotateCaptain_stale_captain_witness :
  rotateCaptain Sample.captainLost
  = Normal (set_captain (Some "A"%string) Sample.captainLost).
Proof.
  refine (rotateCaptain_stale_captain Sample.captainLost _).
  intros p Hp Ha. vm_compute in Hp.
  repeat (apply elem_of_cons in Hp as [-> | Hp]); try discriminate.
  by apply elem_of_nil in Hp.
Defined.
End RoundRobin.

(** ** Elimination and the cycle of phases *)

Section Elimination.
Import GameState Roles TurnManager.
Implicit Types (g : GameState) (p q : Player) (u v : string) (ps : list Player).

Lemma markDead_getPlayer_other g u v :
  v ≠ u → getPlayer (set_players (markDead u (players g)) g) v = getPlayer g v.
Proof.
  intros Hne. unfold getPlayer. simpl. generalize (players g). intros ps.
  induction ps as [|a ps IH]; [done|]. cbn [markDead].
  destruct (decide (userId a = u)) as [E|E].
  - rewrite !find_snd_cons. simpl. rewrite !decide_False by congruence. done.
  - rewrite !find_snd_cons. destruct (decide (userId a = v)); [done|]. by rewrite IH.
Qed.

Lemma markDead_idem u ps : markDead u (markDead u ps) = markDead u ps.
Proof.
  induction ps as [|a ps IH]; [done|]. cbn [markDead].
  destruct (decide (userId a = u)) as [E|E]; cbn [markDead].
  - simpl. by rewrite decide_True.
  - rewrite decide_False by done. by rewrite IH.
Qed.

(** X8. [eliminatePlayer] of an unknown identity does nothing.  For a player who
    is not the captain it only clears that player's [isAlive]: the lookups
    of the other identities, the join order and every player's guns stay as
    they were, and a second elimination changes nothing more. *)
Theorem eliminatePlayer_bystander g u :
  (getPlayer g u = None → eliminatePlayer u g = Normal g) ∧
  (∀ p, getPlayer g u = Some p → captain g ≠ Some u →
     let g' := set_players (markDead u (players g)) g in
     eliminatePlayer u g = Normal g' ∧
     getPlayer g' u = Some (set_isAlive false p) ∧
     (∀ v, v ≠ u → getPlayer g' v = getPlayer g v) ∧
     userId <$> players g' = userId <$> players g ∧
     guns <$> players g' = guns <$> players g ∧
     eliminatePlayer u g' = Normal g').
Proof.
  split.
  - intros H. unfold eliminatePlayer. by rewrite H.
  - intros p Hp Hc g'.
    assert (Hg' : getPlayer g' u = Some (set_isAlive false p)) by (by apply markDead_getPlayer).
    split; [|split; [done|split; [|split; [|split]]]].
    + unfold eliminatePlayer. rewrite Hp. fold g'. by rewrite decide_False.
    + intros v Hv. by apply markDead_getPlayer_other.
    + apply markDead_userIds.
    + apply markDead_guns.
    + unfold eliminatePlayer. rewrite Hg'. rewrite decide_False by done.
      unfold g'. simpl. by rewrite markDead_idem.
Qed.
End Elimination.

Section Cycle.
Import GameState Roles TurnManager.
Implicit Types (g : GameState) (p q : Player) (u v : string).

(** X9. From NAVIGATION_SELECTION, with the captain alive, successive calls of
    [nextPhase] give MUTINY, NAVIGATION and VOTING with nothing else
    changed; the fourth call opens the next turn: NAVIGATION_SELECTION, the
    turn counter one higher, and the next alive player in join order as
    captain. *)
Theorem nextPhase_full_cycle g u p :
  currentPhase g = NAVIGATION_SELECTION →
  captain g = Some u → getPlayer g u = Some p → isAlive p = true →
  repeatedly nextPhase 1 g = Normal (set_currentPhase MUTINY g) ∧
  repeatedly nextPhase 2 g = Normal (set_currentPhase NAVIGATION g) ∧
  repeatedly nextPhase 3 g = Normal (set_currentPhase VOTING g) ∧
  repeatedly nextPhase 4 g =
    Normal (set_captain (Spec.nextAliveAfter u (players g))
              (set_currentPhase NAVIGATION_SELECTION
                 (set_currentTurn (currentTurn g + 1) g))).
Proof.
  intros Hph Hc Hg Ha.
  assert (H1 : nextPhase g = Normal (set_currentPhase MUTINY g)).
  { unfold nextPhase. rewrite Hph. reflexivity. }
  assert (H2 : nextPhase (set_currentPhase MUTINY g) = Normal (set_currentPhase NAVIGATION g))
    by reflexivity.
  assert (H3 : nextPhase (set_currentPhase NAVIGATION g) = Normal (set_currentPhase VOTING g))
    by reflexivity.
  cbn [repeatedly andThen]. rewrite H1. cbn [andThen]. rewrite H2. cbn [andThen].
  rewrite H3. cbn [andThen].
  repeat split.
  rewrite nextPhase_from_voting by done.
  exact (rotateCaptain_next
           (set_currentPhase NAVIGATION_SELECTION (set_currentTurn (currentTurn g + 1) g))
           u p Hc Hg Ha).
Qed.

(** A turn of the fixture under captain "C" hands the captaincy to "D". *)
Lemma nextPhase_full_cycle_witness :
  let g := Fixture.session Fixture.five NAVIGATION_SELECTION "C" in
  repeatedly nextPhase 4 g =
    Normal (set_captain (Some "D"%string)
              (set_currentPhase NAVIGATION_SELECTION (set_currentTurn 2 g))).
Proof.
  exact (proj2 (proj2 (proj2
    (nextPhase_full_cycle (Fixture.session Fixture.five NAVIGATION_SELECTION "C") "C"
       (Fixture.crew "C" true 3) eq_refl eq_refl eq_refl eq_refl)))).
Defined.
End Cycle.

(** ** The voyage *)

Section Voyage.
Import GameState Roles TurnManager.
Implicit Types (g : GameState) (moves : list NavigationMovement).

Lemma sail_distance g moves :
  Forall (λ m, m ∈ cardinals) moves →
  Z.abs (x (shipPosition (sail moves g)) - x (shipPosition g))
  + Z.abs (y (shipPosition (sail moves g)) - y (shipPosition g))
  ≤ Z.of_nat (length moves).
Proof.
  intros H. revert g. induction H as [|m moves Hm _ IH]; intros g.
  - simpl. lia.
  - unfold sail in *. cbn [foldl length].
    specialize (IH (moveShip (dx m) (dy m) g)). cbn [moveShip set_shipPosition shipPosition x y] in IH.
    unfold cardinals in Hm. set_unfold.
    destruct Hm as [-> | [-> | [-> | [-> | []]]]]; cbn [dx dy] in IH |- *; lia.
Qed.

(** X10. From the origin, moving by cardinal unit steps, nobody wins before the
    tenth move, and neither the Sailors nor the Pirates before the
    fifteenth; the moves change neither the players, the phase nor the
    captain. *)
Theorem ship_needs_ten_moves g moves :
  shipPosition g = mkPosition 0 0 →
  Forall (λ m, m ∈ cardinals) moves →
  let g' := sail moves g in
  (is_Some (winner (checkWinCondition g')) → (10 ≤ length moves)%nat) ∧
  (winner (checkWinCondition g') = Some SAILORS ∨
   winner (checkWinCondition g') = Some PIRATES → (15 ≤ length moves)%nat) ∧
  players g' = players g ∧ currentPhase g' = currentPhase g ∧ captain g' = captain g.
Proof.
  intros H0 Hc g'. pose proof (sail_distance g moves Hc) as Hd. fold g' in Hd.
  rewrite H0 in Hd. cbn [x y] in Hd.
  assert (Hw : ∀ w, winner (checkWinCondition g') = Some w →
            match w with
            | SAILORS => 10 ≤ x (shipPosition g') ∧ 5 ≤ y (shipPosition g')
            | PIRATES => 10 ≤ x (shipPosition g') ∧ y (shipPosition g') ≤ -5
            | CULT => 10 ≤ y (shipPosition g')
            end).
  { intros w. unfold checkWinCondition.
    destruct (Z.leb_spec 10 (x (shipPosition g'))), (Z.leb_spec 5 (y (shipPosition g'))),
      (Z.leb_spec (y (shipPosition g')) (-5)), (Z.leb_spec 10 (y (shipPosition g')));
      simpl; intros; simplify_eq; lia. }
  split; [|split].
  - intros [w Hwin]. specialize (Hw w Hwin). destruct w; lia.
  - intros [Hwin|Hwin]; specialize (Hw _ Hwin); simpl in Hw; lia.
  - subst g'. clear. revert g. unfold sail.
    induction moves as [|m moves IH]; intros g; [done|].
    cbn [foldl]. destruct (IH (moveShip (dx m) (dy m) g)) as (-> & -> & ->). done.
Qed.

(** Ten moves North feed the ship to the Kraken. *)
Lemma ship_needs_ten_moves_witness :
  winner (checkWinCondition (sail Sample.tenNorth (GameState.new "channel" "A")))
    = Some CULT ∧
  (10 ≤ length Sample.tenNorth)%nat.
Proof.
  split; [reflexivity|].
  assert (Hc : Forall (λ m, m ∈ cardinals) Sample.tenNorth).
  { apply Forall_replicate. unfold cardinals. left. }
  destruct (ship_needs_ten_moves (GameState.new "channel" "A") Sample.tenNorth eq_refl Hc)
    as [H _].
  apply H. exists CULT. reflexivity.
Defined.
End Voyage.

(** ** Selecting the navigation team *)

Section TeamSelection.
Import GameState Roles TurnManager.
Implicit Types (tm : TurnManager) (d : Dice) (user : string).

Lemma not_not_eq (a b : option string) : a = b → ¬ a ≠ b.
Proof. intros E H. done. Qed.

(** What entering the mutiny phase leaves behind. *)
Lemma mutinyPhase_returns tm :
  ∃ tm' es, mutinyPhase tm = (Normal tm', es) ∧
    game tm' = game tm ∧ mutinyVotes tm' = ∅ ∧
    mutinyEligibleVoters tm' = list_to_set (userId <$> crewExceptCaptain (game tm)) ∧
    mutinyTimeoutId tm' = true ∧
    lastMutinySucceeded tm' = lastMutinySucceeded tm ∧
    selectedLieutenant tm' = selectedLieutenant tm ∧
    selectedNavigator tm' = selectedNavigator tm ∧
    captainNavigationChoice tm' = captainNavigationChoice tm ∧
    lieutenantNavigationChoice tm' = lieutenantNavigationChoice tm ∧
    captainChoiceLocked tm' = captainChoiceLocked tm ∧
    lieutenantChoiceLocked tm' = lieutenantChoiceLocked tm ∧
    navigatorChoiceLocked tm' = navigatorChoiceLocked tm.
Proof.
  unfold mutinyPhase. run_method. simpl.
  destruct (mutinyTimeoutId tm); simpl; do 2 eexists; (split; [reflexivity|]); simpl;
    rewrite foldl_add_voters; (repeat split; [set_solver..]).
Qed.

(** X11. Confirming the navigation team: anyone but the captain is refused; the
    captain is refused while a selection is missing or empty, and when both
    selections name the same person; a refusal leaves the controller
    unchanged and sends one ephemeral message.  With two different
    selections the handler returns, the team is set, the phase is MUTINY,
    the ballot is empty, the eligible voters are the alive players other
    than the captain, and [lastMutinySucceeded] is false. *)
Theorem confirm_navigation_team_checks d tm user :
  (Some user ≠ captain (game tm) →
     handleAction d confirm_navigation_team user tm =
       (Normal tm, [postEphemeral (managerChannelId tm) (Some user) OnlyCaptainConfirms])) ∧
  (Some user = captain (game tm) →
     truthy (selectedLieutenant tm) = false ∨ truthy (selectedNavigator tm) = false →
     handleAction d confirm_navigation_team user tm =
       (Normal tm, [postEphemeral (managerChannelId tm) (Some user) SelectBothFirst])) ∧
  (∀ l, Some user = captain (game tm) → l ≠ EmptyString →
     selectedLieutenant tm = Some l → selectedNavigator tm = Some l →
     handleAction d confirm_navigation_team user tm =
       (Normal tm, [postEphemeral (managerChannelId tm) (Some user) MustBeDifferentPeople])) ∧
  (∀ l n, Some user = captain (game tm) → l ≠ EmptyString → n ≠ EmptyString → l ≠ n →
     selectedLieutenant tm = Some l → selectedNavigator tm = Some n →
     let tm' := after (handleAction d confirm_navigation_team user) tm in
     returns (fst (handleAction d confirm_navigation_team user tm)) = true ∧
     game tm' = set_currentPhase MUTINY (setNavigationTeam l n (game tm)) ∧
     mutinyVotes tm' = ∅ ∧
     mutinyEligibleVoters tm' = list_to_set (userId <$> crewExceptCaptain (game tm)) ∧
     lastMutinySucceeded tm' = false).
Proof.
  split; [|split; [|split]].
  - intros H. unfold handleAction, reading. by rewrite decide_True.
  - intros Hu Hsel. unfold handleAction, reading.
    rewrite decide_False by (by apply not_not_eq).
    destruct (selectedLieutenant tm) as [l|]; [|done].
    destruct (selectedNavigator tm) as [n|]; [|done].
    destruct Hsel as [-> | ->]; [done|]. by rewrite orb_true_r.
  - intros l Hu Hl Hsl Hsn. unfold handleAction, reading.
    rewrite decide_False by (by apply not_not_eq). rewrite Hsl, Hsn. simpl.
    rewrite bool_decide_eq_false_2 by done. simpl. by rewrite decide_True.
  - intros l n Hu Hl Hn Hln Hsl Hsn tm'. subst tm'.
    unfold handleAction, reading, after.
    rewrite decide_False by (by apply not_not_eq). rewrite Hsl, Hsn. simpl.
    rewrite !bool_decide_eq_false_2 by done. simpl. rewrite decide_False by done.
    unfold executePhase. run_method. simpl.
    destruct (lastMutinySucceeded tm) eqn:Hlast; simpl;
      match goal with |- context [mutinyPhase ?t] =>
        destruct (mutinyPhase_returns t) as (tm1 & es & -> & Hg & Hv & He & _ & Hf & _)
      end; simpl in *; rewrite Hg, Hv, He, Hf, ?Hlast; repeat split; reflexivity.
Qed.
End TeamSelection.

(** ** Proposals and the ballot *)

Section Proposals.
Import GameState Roles TurnManager.
Implicit Types (tm : TurnManager) (d : Dice) (user : string) (payload : NavigationMovement).

(** X12. While the corresponding lock is open, a proposal sent by someone other
    than the captain, respectively the lieutenant, and a final choice sent
    by someone other than the navigator are refused with one ephemeral
    message and leave the controller unchanged. *)
Theorem navigation_wrong_actor d tm user payload :
  (captainChoiceLocked tm = false → Some user ≠ captain (game tm) →
     handleAction d (nav_choice_captain payload) user tm =
       (Normal tm, [postEphemeral (managerChannelId tm) (Some user) OnlyCaptainChooses])) ∧
  (lieutenantChoiceLocked tm = false → Some user ≠ lieutenant (game tm) →
     handleAction d (nav_choice_lieutenant payload) user tm =
       (Normal tm, [postEphemeral (managerChannelId tm) (Some user) OnlyLieutenantChooses])) ∧
  (navigatorChoiceLocked tm = false → Some user ≠ navigator (game tm) →
     handleAction d (navigate_final payload) user tm =
       (Normal tm, [postEphemeral (managerChannelId tm) (Some user) OnlyNavigatorChooses])).
Proof.
  repeat split; intros Hl Hu; unfold handleAction, reading; rewrite Hl;
    by rewrite decide_True.
Qed.

(** X13. The proposals of the captain and of the lieutenant can come in either
    order: both orders end in the same controller state, with both choices
    locked and the game untouched.  In either order the proposal that comes
    second is acknowledged and then the navigator is sent both, the
    captain's first and the lieutenant's second, and the channel is told to
    wait for the navigator; a proposal that comes while the other one is
    not in is only acknowledged. *)
Theorem proposals_commute d tm (cap lieu : string) (pc pl : NavigationMovement) :
  captainChoiceLocked tm = false → lieutenantChoiceLocked tm = false →
  Some cap = captain (game tm) → Some lieu = lieutenant (game tm) →
  let captainFirst :=
    after (handleAction d (nav_choice_lieutenant pl) lieu)
          (after (handleAction d (nav_choice_captain pc) cap) tm) in
  let lieutenantFirst :=
    after (handleAction d (nav_choice_captain pc) cap)
          (after (handleAction d (nav_choice_lieutenant pl) lieu) tm) in
  let toNavigator :=
    [ postMessage (navigator (game tm))
        (NavigatorFinalChoice [(AsCaptain, pc); (AsLieutenant, pl)]);
      postMessage (Some (managerChannelId tm)) WaitingForNavigator ] in
  captainFirst = lieutenantFirst ∧
  navigatorOptions captainFirst = [(AsCaptain, pc); (AsLieutenant, pl)] ∧
  captainChoiceLocked captainFirst = true ∧ lieutenantChoiceLocked captainFirst = true ∧
  game captainFirst = game tm ∧
  sent (handleAction d (nav_choice_lieutenant pl) lieu)
       (after (handleAction d (nav_choice_captain pc) cap) tm)
    = postEphemeral lieu (Some lieu) (ChoiceRecorded pl) :: toNavigator ∧
  sent (handleAction d (nav_choice_captain pc) cap)
       (after (handleAction d (nav_choice_lieutenant pl) lieu) tm)
    = postEphemeral cap (Some cap) (ChoiceRecorded pc) :: toNavigator ∧
  (lieutenantNavigationChoice tm = None →
     sent (handleAction d (nav_choice_captain pc) cap) tm
       = [postEphemeral cap (Some cap) (ChoiceRecorded pc)]) ∧
  (captainNavigationChoice tm = None →
     sent (handleAction d (nav_choice_lieutenant pl) lieu) tm
       = [postEphemeral lieu (Some lieu) (ChoiceRecorded pl)]).
Proof.
  intros Hc Hl Hcu Hlu.
  assert (Hnn : ∀ (a o : option string), a = o → ¬ a ≠ o) by (intros a o E Hne; done).
  assert (H1 : after (handleAction d (nav_choice_captain pc) cap) tm
               = set_captainChoice (Some pc) true tm).
  { unfold handleAction, sendNavigatorFinalChoice. run_method.
    rewrite Hc, decide_False by auto. simpl. rewrite movement_eta.
    destruct (lieutenantNavigationChoice tm) eqn:E; simpl; rewrite ?E; done. }
  assert (H2 : after (handleAction d (nav_choice_lieutenant pl) lieu) tm
               = set_lieutenantChoice (Some pl) true tm).
  { unfold handleAction, sendNavigatorFinalChoice. run_method.
    rewrite Hl, decide_False by auto. simpl. rewrite movement_eta.
    destruct (captainNavigationChoice tm) eqn:E; simpl; rewrite ?E; done. }
  assert (H3 : after (handleAction d (nav_choice_lieutenant pl) lieu)
                 (set_captainChoice (Some pc) true tm)
               = set_lieutenantChoice (Some pl) true (set_captainChoice (Some pc) true tm)).
  { unfold handleAction, sendNavigatorFinalChoice. run_method. simpl.
    rewrite Hl, decide_False by auto. simpl. by rewrite movement_eta. }
  assert (H4 : after (handleAction d (nav_choice_captain pc) cap)
                 (set_lieutenantChoice (Some pl) true tm)
               = set_captainChoice (Some pc) true (set_lieutenantChoice (Some pl) true tm)).
  { unfold handleAction, sendNavigatorFinalChoice. run_method. simpl.
    rewrite Hc, decide_False by auto. simpl. by rewrite movement_eta. }
  cbv zeta. rewrite H1, H2, H3, H4.
  split; [done|]. split; [done|]. split; [done|]. split; [done|]. split; [done|].
  split; [|split; [|split]].
  - exact (proj2 (second_proposal_forwards d (set_captainChoice (Some pc) true tm) lieu pl pc)
             Hl Hlu eq_refl).
  - exact (proj1 (second_proposal_forwards d (set_lieutenantChoice (Some pl) true tm) cap pc pl)
             Hc Hcu eq_refl).
  - intros Hn. unfold handleAction, sendNavigatorFinalChoice. run_method.
    rewrite Hc, decide_False by auto. simpl. rewrite Hn, movement_eta. done.
  - intros Hn. unfold handleAction, sendNavigatorFinalChoice. run_method.
    rewrite Hl, decide_False by auto. simpl. rewrite Hn, movement_eta. done.
Qed.

(** "C" proposes North and then "A" East: East completes the pair and both
    go to the navigator "B". *)
Lemma proposals_commute_witness :
  sent (handleAction Fixture.dice (nav_choice_lieutenant (mkMovement 1 0)) "A")
       (after (handleAction Fixture.dice (nav_choice_captain (mkMovement 0 1)) "C")
          Sample.navigationRound)
  = [ postEphemeral "A" (Some "A"%string) (ChoiceRecorded (mkMovement 1 0));
      postMessage (Some "B"%string)
        (NavigatorFinalChoice [(AsCaptain, mkMovement 0 1); (AsLieutenant, mkMovement 1 0)]);
      postMessage (Some "channel"%string) WaitingForNavigator ].
Proof.
  destruct (proposals_commute Fixture.dice Sample.navigationRound "C" "A"
              (mkMovement 0 1) (mkMovement 1 0) eq_refl eq_refl eq_refl eq_refl)
    as (_ & _ & _ & _ & _ & H & _).
  exact H.
Defined.
End Proposals.

Section BallotFrame.
Import GameState Roles TurnManager.
Implicit Types (tm : TurnManager) (d : Dice) (user : string).

Lemma resolveMutiny_frame d tm :
  let tm' := after (resolveMutiny d) tm in
  mutinyVotes tm' = mutinyVotes tm ∧
  mutinyEligibleVoters tm' = mutinyEligibleVoters tm ∧
  mutinyTimeoutId tm' = false ∧
  players (game tm') = players (game tm) ∧
  lieutenant (game tm') = lieutenant (game tm) ∧
  navigator (game tm') = navigator (game tm) ∧
  shipPosition (game tm') = shipPosition (game tm) ∧
  currentTurn (game tm') = currentTurn (game tm) ∧
  status (game tm') = status (game tm).
Proof.
  assert (He : ∀ r g, players (electCaptainByGuns r g) = players g ∧
             lieutenant (electCaptainByGuns r g) = lieutenant g ∧
             navigator (electCaptainByGuns r g) = navigator g ∧
             shipPosition (electCaptainByGuns r g) = shipPosition g ∧
             currentTurn (electCaptainByGuns r g) = currentTurn g ∧
             status (electCaptainByGuns r g) = status g).
  { intros r g. unfold electCaptainByGuns. destruct (eligibleCrew g); [done|].
    by destruct (_ !! _). }
  unfold resolveMutiny. run_method.
  assert (Hs : ∀ b, mutinySucceeded (set_mutinyTimeoutId b tm) = mutinySucceeded tm) by done.
  destruct (He (election d) (game tm)) as (? & ? & ? & ? & ? & ?).
  destruct (mutinyTimeoutId tm) eqn:Ht; simpl; rewrite ?Hs;
    destruct (mutinySucceeded tm); simpl; rewrite ?Ht; done.
Qed.
End BallotFrame.

Section BallotBounds.
Import GameState Roles TurnManager.
Implicit Types (tm : TurnManager) (d : Dice) (user : string) (g : GameState).

Lemma gunsOf_nonneg g u :
  (∀ p, p ∈ players g → 0 ≤ guns p) → 0 ≤ gunsOf g u.
Proof.
  intros H. unfold gunsOf, getPlayer.
  destruct (list_find _ _) as [[i p]|] eqn:E; simpl; [|lia].
  apply list_find_Some in E as (Hi & _). apply H. eapply list_elem_of_lookup_2; eauto.
Qed.

Lemma gunsOfAll_nonneg g (X : gset string) :
  (∀ p, p ∈ players g → 0 ≤ guns p) → 0 ≤ gunsOfAll g X.
Proof.
  intros H. unfold gunsOfAll. induction (elements X) as [|u l IH]; [simpl; lia|].
  rewrite fmap_cons. cbn [foldr]. pose proof (gunsOf_nonneg g u H). lia.
Qed.

(** Ballots within their bounds never add up to more than the crew holds. *)
Lemma tally_bounded g (m : gmap string Z) :
  (∀ p, p ∈ players g → 0 ≤ guns p) →
  ∀ X : gset string,
    (∀ u v, m !! u = Some v → u ∈ X ∧ 0 ≤ v ≤ gunsOf g u) →
    0 ≤ map_fold (λ _ guns total, total + guns) 0 m ≤ gunsOfAll g X.
Proof.
  intros Hpos.
  apply (map_fold_weak_ind (λ r m, ∀ X : gset string,
           (∀ u v, m !! u = Some v → u ∈ X ∧ 0 ≤ v ≤ gunsOf g u) →
           0 ≤ r ≤ gunsOfAll g X)).
  - intros X _. pose proof (gunsOfAll_nonneg g X Hpos). lia.
  - intros i x m' r Hi IH X HX.
    destruct (HX i x) as [HiX Hx]; [by rewrite lookup_insert_eq|].
    specialize (IH (X ∖ {[i]})).
    rewrite (gunsOfAll_remove g X i HiX).
    assert (0 ≤ r ≤ gunsOfAll g (X ∖ {[i]})); [|lia].
    apply IH. intros u v Huv.
    assert (u ≠ i) by congruence.
    destruct (HX u v) as [HuX Hv]; [by rewrite lookup_insert_ne|].
    split; [set_solver|done].
Qed.

(** When everyone named in the ballot has committed all their guns. *)
Lemma tally_full g (m : gmap string Z) :
  (∀ u v, m !! u = Some v → v = gunsOf g u) →
  map_fold (λ _ guns total, total + guns) 0 m = gunsOfAll g (dom m).
Proof.
  apply (map_fold_weak_ind (λ r m,
           (∀ u v, m !! u = Some v → v = gunsOf g u) → r = gunsOfAll g (dom m))).
  - intros _. unfold gunsOfAll. by rewrite dom_empty_L, elements_empty.
  - intros i x m' r Hi IH H.
    rewrite dom_insert_L. rewrite (gunsOfAll_remove g _ i) by set_solver.
    replace (({[i]} ∪ dom m') ∖ {[i]}) with (dom m').
    + rewrite <- IH.
      * rewrite (H i x) by (by rewrite lookup_insert_eq). lia.
      * intros u v Huv. apply H. rewrite lookup_insert_ne; [done|congruence].
    + apply not_elem_of_dom in Hi. set_solver.
Qed.

Lemma tally_zero (m : gmap string Z) :
  (∀ u v, m !! u = Some v → v = 0) →
  map_fold (λ _ guns total, total + guns) 0 m = 0.
Proof.
  apply (map_fold_weak_ind (λ r m, (∀ u v, m !! u = Some v → v = 0) → r = 0)).
  - done.
  - intros i x m' r Hi IH H. rewrite IH.
    + rewrite (H i x); [done|]. by rewrite lookup_insert_eq.
    + intros u v Huv. apply (H u v). rewrite lookup_insert_ne; [done|congruence].
Qed.

(** X14. When no player holds a negative number of guns and no ballot commits a
    gun, in particular when nobody has voted, the mutiny fails and
    [resolveMutiny] changes the game in its phase only, which becomes
    NAVIGATION. *)
Theorem empty_ballot_fails d tm :
  (∀ p, p ∈ players (game tm) → 0 ≤ guns p) →
  (∀ u v, mutinyVotes tm !! u = Some v → v = 0) →
  mutinySucceeded tm = false ∧
  game (after (resolveMutiny d) tm) = set_currentPhase NAVIGATION (game tm).
Proof.
  intros Hpos Hzero.
  assert (Hf : mutinySucceeded tm = false).
  { unfold mutinySucceeded, mutinyThreshold, totalGunsUsed.
    rewrite (tally_zero _ Hzero), totalCrewGuns_sum.
    pose proof (gunsOfAll_nonneg (game tm) (mutinyEligibleVoters tm) Hpos).
    apply bool_decide_eq_false. 
    assert (0 ≤ gunsOfAll (game tm) (mutinyEligibleVoters tm) / 2) by (apply Z.div_pos; lia).
    lia. }
  split; [done|].
  unfold after. destruct (resolveMutiny_returns d tm) as (tm1 & E1 & _ & E2).
  rewrite E1. simpl. by rewrite E2, Hf.
Qed.

(** The mutiny of nine guns when nobody has voted. *)
Lemma empty_ballot_fails_witness : mutinySucceeded Scenario.nineGuns = false.
Proof.
  refine (proj1 (empty_ballot_fails Fixture.dice Scenario.nineGuns _ _)).
  - intros p Hp. vm_compute in Hp.
    repeat (apply elem_of_cons in Hp as [-> | Hp]); try discriminate.
    by apply elem_of_nil in Hp.
  - intros u v H. assert (E : mutinyVotes Scenario.nineGuns = ∅) by reflexivity.
    rewrite E, lookup_empty in H. discriminate.
Defined.

(** X15. When no player holds a negative number of guns and every ballot comes
    from an eligible voter and commits between zero and that voter's guns,
    the guns used lie between zero and the guns of the crew, and a mutiny
    that succeeds has used at least one gun and more than half of the
    crew's guns. *)
Theorem ballots_within_bounds tm :
  (∀ p, p ∈ players (game tm) → 0 ≤ guns p) →
  (∀ u v, mutinyVotes tm !! u = Some v →
          u ∈ mutinyEligibleVoters tm ∧ 0 ≤ v ≤ gunsOf (game tm) u) →
  0 ≤ totalGunsUsed tm ≤ totalCrewGuns tm ∧
  (mutinySucceeded tm = true → 1 ≤ totalGunsUsed tm ∧ 2 * totalGunsUsed tm > totalCrewGuns tm).
Proof.
  intros Hpos Hb. rewrite totalCrewGuns_sum.
  pose proof (tally_bounded (game tm) (mutinyVotes tm) Hpos _ Hb) as Hle.
  fold (totalGunsUsed tm) in Hle. split; [done|].
  unfold mutinySucceeded, mutinyThreshold. rewrite bool_decide_eq_true, totalCrewGuns_sum.
  intros Hs.
  pose proof (Z.div_mod (gunsOfAll (game tm) (mutinyEligibleVoters tm)) 2 ltac:(lia)).
  pose proof (Z.mod_pos_bound (gunsOfAll (game tm) (mutinyEligibleVoters tm)) 2 ltac:(lia)).
  lia.
Qed.

(** "B" has committed two of three guns. *)
Lemma ballots_within_bounds_witness :
  0 ≤ totalGunsUsed Sample.oneBallot ≤ totalCrewGuns Sample.oneBallot.
Proof.
  refine (proj1 (ballots_within_bounds Sample.oneBallot _ _)).
  - intros p Hp. vm_compute in Hp.
    repeat (apply elem_of_cons in Hp as [-> | Hp]); try discriminate.
    by apply elem_of_nil in Hp.
  - intros u v H.
    assert (E : mutinyVotes Sample.oneBallot = {[ "B"%string := 2 ]}) by reflexivity.
    rewrite E in H. apply lookup_singleton_Some in H as [<- <-].
    split; [apply (bool_decide_unpack _); vm_compute; exact I|].
    assert (Hg : gunsOf (game Sample.oneBallot) "B" = 3) by reflexivity.
    rewrite Hg. lia.
Defined.

(** X16. When the eligible voters, and nobody else, have each committed all
    their guns and the crew holds at least one gun, the guns used equal the
    guns of the crew and the mutiny succeeds. *)
Theorem full_commitment_succeeds tm :
  dom (mutinyVotes tm) = mutinyEligibleVoters tm →
  (∀ u v, mutinyVotes tm !! u = Some v → v = gunsOf (game tm) u) →
  1 ≤ totalCrewGuns tm →
  totalGunsUsed tm = totalCrewGuns tm ∧ mutinySucceeded tm = true.
Proof.
  intros Hdom Hfull Hone.
  assert (Heq : totalGunsUsed tm = totalCrewGuns tm).
  { unfold totalGunsUsed. rewrite (tally_full (game tm) _ Hfull), Hdom.
    by rewrite totalCrewGuns_sum. }
  split; [done|]. unfold mutinySucceeded, mutinyThreshold. rewrite Heq.
  apply bool_decide_eq_true.
  pose proof (Z.div_mod (totalCrewGuns tm) 2 ltac:(lia)).
  pose proof (Z.mod_pos_bound (totalCrewGuns tm) 2 ltac:(lia)). lia.
Qed.

(** "B", "C" and "D" commit their nine guns. *)
Lemma full_commitment_succeeds_witness : mutinySucceeded Sample.allIn = true.
Proof.
  refine (proj2 (full_commitment_succeeds Sample.allIn _ _ _)).
  - apply leibniz_equiv. apply (bool_decide_unpack _). vm_compute. exact I.
  - intros u v H.
    assert (E : mutinyVotes Sample.allIn
                = <[ "B"%string := 3 ]> (<[ "C"%string := 3 ]> {[ "D"%string := 3 ]}))
      by reflexivity.
    rewrite E in H.
    apply lookup_insert_Some in H as [[<- <-] | [_ H]]; [reflexivity|].
    apply lookup_insert_Some in H as [[<- <-] | [_ H]]; [reflexivity|].
    apply lookup_singleton_Some in H as [<- <-]. reflexivity.
  - assert (Hg : totalCrewGuns Sample.allIn = 9) by (vm_compute; reflexivity).
    rewrite Hg. lia.
Defined.

(** X17. A vote submission stores the count under its voter.  A resubmission
    replaces the earlier count: the number of ballots stays and the total
    changes by the difference; a first submission adds one ballot and its
    count.  While the number of ballots differs from the number of
    eligible voters the submission only records the ballot and reports the
    count; when they are equal it ends as [resolveMutiny] does on the
    recorded ballot.  A view with another callback id is ignored. *)
Theorem ballot_counting d tm user n :
  let recorded := set_mutinyVotes (<[user := n]> (mutinyVotes tm)) tm in
  (∀ old, mutinyVotes tm !! user = Some old →
     size (mutinyVotes recorded) = size (mutinyVotes tm) ∧
     totalGunsUsed recorded = totalGunsUsed tm - old + n) ∧
  (mutinyVotes tm !! user = None →
     size (mutinyVotes recorded) = S (size (mutinyVotes tm)) ∧
     totalGunsUsed recorded = totalGunsUsed tm + n) ∧
  (size (mutinyVotes recorded) ≠ size (mutinyEligibleVoters tm) →
     handleViewSubmission d (mkView "mutiny_vote_modal" n) user tm =
       (Normal recorded,
        [ postEphemeral (managerChannelId tm) (Some user) (VoteRecorded n);
          postMessage (Some (managerChannelId tm))
            (VoteCount (size (mutinyVotes recorded)) (size (mutinyEligibleVoters tm))) ])) ∧
  (size (mutinyVotes recorded) = size (mutinyEligibleVoters tm) →
     after (handleViewSubmission d (mkView "mutiny_vote_modal" n) user) tm
       = after (resolveMutiny d) recorded) ∧
  (∀ view, callback_id view ≠ "mutiny_vote_modal"%string →
     handleViewSubmission d view user tm = (Normal tm, [])).
Proof.
  intros recorded. split; [|split; [|split; [|split]]].
  - intros old Hold. split.
    + simpl. apply map_size_insert_Some. eauto.
    + unfold recorded. rewrite totalGunsUsed_insert, Hold. done.
  - intros Hnone. split.
    + simpl. by rewrite map_size_insert_None.
    + unfold recorded. rewrite totalGunsUsed_insert, Hnone. simpl. lia.
  - intros Hne. unfold handleViewSubmission. rewrite decide_True by done.
    run_method. simpl. fold recorded. simpl in Hne. by rewrite decide_False.
  - intros Heq. unfold handleViewSubmission. rewrite decide_True by done.
    run_method. simpl. simpl in Heq. rewrite decide_True by done.
    fold recorded. by destruct (resolveMutiny d recorded) as [c es].
  - intros view Hv. unfold handleViewSubmission. by rewrite decide_False.
Qed.

(** X18. [resolveMutiny] keeps the ballots and the eligible voters as they are
    and leaves no timer pending, clearing first the one that was; when the
    mutiny fails the game changes in its phase only, which becomes
    NAVIGATION. *)
Theorem resolveMutiny_keeps_ballot d tm :
  let tm' := after (resolveMutiny d) tm in
  mutinyVotes tm' = mutinyVotes tm ∧
  mutinyEligibleVoters tm' = mutinyEligibleVoters tm ∧
  mutinyTimeoutId tm' = false ∧
  (mutinyTimeoutId tm = true →
     head (sent (resolveMutiny d) tm) = Some (clearTimeout MutinyTimeout)) ∧
  (mutinySucceeded tm = false →
     game tm' = set_currentPhase NAVIGATION (game tm)).
Proof.
  intros tm'. destruct (resolveMutiny_frame d tm) as (Hv & He & Ht & _).
  split; [done|]. split; [done|]. split; [done|]. split.
  - intros Hon. unfold resolveMutiny. run_method. rewrite Hon. simpl.
    assert (Hs : mutinySucceeded (set_mutinyTimeoutId false tm) = mutinySucceeded tm) by done.
    rewrite Hs. destruct (mutinySucceeded tm); reflexivity.
  - intros Hf. unfold tm', after.
    destruct (resolveMutiny_returns d tm) as (tm1 & E1 & _ & E2).
    rewrite E1. simpl. by rewrite E2, Hf.
Qed.
End BallotBounds.

(** ** Entering a phase *)

Section PhaseEntry.
Import GameState Roles TurnManager.
Implicit Types (tm : TurnManager) (d : Dice) (user : string) (g : GameState).

Lemma executePhase_returns d tm :
  ∃ tm' es, executePhase d tm = (Normal tm', es) ∧ game tm' = game tm ∧
    selectedLieutenant tm' = selectedLieutenant tm ∧
    selectedNavigator tm' = selectedNavigator tm ∧
    lastMutinySucceeded tm' = lastMutinySucceeded tm.
Proof.
  unfold executePhase, reading.
  destruct (currentPhase (game tm)); unfold mutinyPhase; run_method; simpl;
    try destruct (mutinyTimeoutId tm); do 2 eexists; (split; [reflexivity|]);
    repeat split; reflexivity.
Qed.

Lemma sameRoster_refl g : sameRoster g g.
Proof. by repeat split. Qed.

Lemma sameRoster_trans g1 g2 g3 : sameRoster g1 g2 → sameRoster g2 g3 → sameRoster g1 g3.
Proof. unfold sameRoster. intros (?&?&?&?&?) (?&?&?&?&?). repeat split; congruence. Qed.

Lemma rotateCaptain_sameRoster g : sameRoster g (stateOf (rotateCaptain g)).
Proof.
  unfold rotateCaptain. destruct (decide _); [apply sameRoster_refl|].
  destruct (_ !! _); by repeat split.
Qed.

Lemma nextPhase_sameRoster g : sameRoster g (stateOf (nextPhase g)).
Proof.
  unfold nextPhase. destruct (_ || _).
  - eapply sameRoster_trans; [|apply rotateCaptain_sameRoster]. by repeat split.
  - destruct (_ !! _); by repeat split.
Qed.

Lemma startTurn_game d tm :
  ∃ c es, startTurn d tm = (c, es) ∧
    match nextPhase (game tm) with
    | Thrown g' => c = Thrown (set_game g' tm) ∧ es = []
    | Normal g' =>
        ∃ tm', c = Normal tm' ∧
          game tm' =
            if bool_decide (currentPhase (game tm) = VOTING)
               && truthy (lieutenant g') && truthy (navigator g')
               && bool_decide (currentPhase g' = NAVIGATION_SELECTION)
            then set_currentPhase MUTINY g' else g'
    end.
Proof.
  unfold startTurn.
  assert (HE : ∃ ep, ep = executePhase d ∧ ∀ t, ∃ tm' es, ep t = (Normal tm', es) ∧ game tm' = game t).
  { eexists; split; [reflexivity|]. intros t.
    destruct (executePhase_returns d t) as (tm1 & es & E1 & E2 & _). eauto. }
  destruct HE as (ep & <- & HE).
  unfold reading, andThenM, onGame.
  destruct (nextPhase (game tm)) as [g'|g']; [|by do 2 eexists].
  cbn [game set_game].
  destruct (_ && _ && _ && _); run_method; cbn;
    match goal with |- context [ep ?t] =>
      destruct (HE t) as (tm1 & es & E1 & E2); rewrite E1 end;
    do 2 eexists; (split; [reflexivity|]); eexists; (split; [reflexivity|]); by rewrite E2.
Qed.

(** X19. Out of any phase but VOTING, [startTurn] leaves the game exactly as
    [nextPhase] does and returns when [nextPhase] does: NAVIGATION_SELECTION
    goes to MUTINY, MUTINY to NAVIGATION and NAVIGATION to VOTING with
    nothing else changed, and out of LOBBY, NIGHT or FEED_KRAKEN a turn
    opens on NAVIGATION_SELECTION with the counter one higher. *)
Theorem startTurn_outside_voting d tm :
  currentPhase (game tm) ≠ VOTING →
  let tm' := after (startTurn d) tm in
  game tm' = stateOf (nextPhase (game tm)) ∧
  returns (fst (startTurn d tm)) = returns (nextPhase (game tm)) ∧
  (currentPhase (game tm) = NAVIGATION_SELECTION →
     game tm' = set_currentPhase MUTINY (game tm)) ∧
  (currentPhase (game tm) = MUTINY → game tm' = set_currentPhase NAVIGATION (game tm)) ∧
  (currentPhase (game tm) = NAVIGATION → game tm' = set_currentPhase VOTING (game tm)) ∧
  (currentPhase (game tm) ∈ [LOBBY; NIGHT; FEED_KRAKEN] →
     currentPhase (game tm') = NAVIGATION_SELECTION ∧
     currentTurn (game tm') = currentTurn (game tm) + 1).
Proof.
  intros Hph tm'.
  assert (Hgame : game tm' = stateOf (nextPhase (game tm)) ∧
                  returns (fst (startTurn d tm)) = returns (nextPhase (game tm))).
  { subst tm'. unfold after.
    destruct (startTurn_game d tm) as (c & es & -> & H).
    rewrite bool_decide_eq_false_2 in H by done. simpl in H.
    destruct (nextPhase (game tm)) as [g'|g'].
    - destruct H as (tm1 & -> & E). by rewrite <- E.
    - destruct H as [-> ->]. done. }
  destruct Hgame as [Hg Hr]. split; [done|]. split; [done|]. rewrite Hg.
  split; [|split; [|split]].
  - intros E. unfold nextPhase. rewrite E. reflexivity.
  - intros E. unfold nextPhase. rewrite E. reflexivity.
  - intros E. unfold nextPhase. rewrite E. reflexivity.
  - intros E.
    assert (Hn : nextPhase (game tm) =
                 rotateCaptain (set_currentPhase NAVIGATION_SELECTION
                                  (set_currentTurn (currentTurn (game tm) + 1) (game tm)))).
    { unfold nextPhase. set_unfold. destruct E as [E|[E|[E|[]]]]; rewrite E; reflexivity. }
    rewrite Hn.
    match goal with |- context [rotateCaptain ?g] =>
      pose proof (rotateCaptain_frame g) as (_ & Hp & Ht & _) end.
    simpl in Hp, Ht. by rewrite Hp, Ht.
Qed.

(** Out of the selection of the team the turn goes on to the mutiny. *)
Lemma startTurn_outside_voting_witness :
  let tm := TurnManager.new (Fixture.session Fixture.five NAVIGATION_SELECTION "C")
                            "channel" in
  currentPhase (game (after (startTurn Fixture.dice) tm)) = MUTINY.
Proof.
  intros tm.
  destruct (startTurn_outside_voting Fixture.dice tm) as (_ & _ & H & _); [discriminate|].
  rewrite (H eq_refl). reflexivity.
Defined.

(** X20. [executePhase] always returns and never changes the game, the team
    selections or [lastMutinySucceeded].  Outside the four phases of a turn
    it does nothing at all; only the entry into MUTINY touches the ballot,
    the eligible voters and the timer; only the entry into NAVIGATION
    touches the proposals and their locks, which it clears. *)
Theorem executePhase_entry d tm :
  ∃ tm' es, executePhase d tm = (Normal tm', es) ∧
    game tm' = game tm ∧
    selectedLieutenant tm' = selectedLieutenant tm ∧
    selectedNavigator tm' = selectedNavigator tm ∧
    lastMutinySucceeded tm' = lastMutinySucceeded tm ∧
    (currentPhase (game tm) ∉ [NAVIGATION_SELECTION; MUTINY; NAVIGATION; VOTING] →
       tm' = tm ∧ es = []) ∧
    (currentPhase (game tm) ≠ MUTINY →
       mutinyVotes tm' = mutinyVotes tm ∧
       mutinyEligibleVoters tm' = mutinyEligibleVoters tm ∧
       mutinyTimeoutId tm' = mutinyTimeoutId tm) ∧
    (currentPhase (game tm) ≠ NAVIGATION →
       captainNavigationChoice tm' = captainNavigationChoice tm ∧
       lieutenantNavigationChoice tm' = lieutenantNavigationChoice tm ∧
       captainChoiceLocked tm' = captainChoiceLocked tm ∧
       lieutenantChoiceLocked tm' = lieutenantChoiceLocked tm ∧
       navigatorChoiceLocked tm' = navigatorChoiceLocked tm) ∧
    (currentPhase (game tm) = NAVIGATION →
       captainNavigationChoice tm' = None ∧ lieutenantNavigationChoice tm' = None ∧
       captainChoiceLocked tm' = false ∧ lieutenantChoiceLocked tm' = false ∧
       navigatorChoiceLocked tm' = false).
Proof.
  unfold executePhase, reading.
  destruct (currentPhase (game tm)) eqn:E.
  all: try (destruct (mutinyPhase_returns tm) as (tm1 & es1 & E1 & Hg & _ & _ & _ & Hsl & Hsn & Hcc & Hlc & Hcl & Hll & Hnl & Hlast);
            rewrite E1).
  all: unfold navigationSelectionPhase, navigationPhase, votingPhase,
         sendNavigationChoiceCards; run_method; simpl.
  all: do 2 eexists; split; [reflexivity|].
  all: repeat split; try done; try (intros; set_solver); try congruence.
Qed.

Lemma startTurn_sameRoster d tm : sameRoster (game tm) (game (after (startTurn d) tm)).
Proof.
  unfold after. destruct (startTurn_game d tm) as (c & es & -> & H).
  pose proof (nextPhase_sameRoster (game tm)) as Hn.
  destruct (nextPhase (game tm)) as [g'|g']; simpl in Hn.
  - destruct H as (tm1 & -> & Hg). simpl. rewrite Hg.
    destruct (_ && _ && _ && _); [|done].
    eapply sameRoster_trans; [exact Hn|]. by repeat split.
  - destruct H as [-> ->]. done.
Qed.

(** X21. No interactive action changes the roster: after [handleAction],
    whatever the action, the user and the state, the players with their
    roles, guns and liveness, the status, the channel, the host and the
    cult leader are as before. *)
Theorem handleAction_keeps_roster d action user tm :
  sameRoster (game tm) (game (after (handleAction d action user) tm)).
Proof.
  assert (HE : ∃ ep, ep = executePhase d ∧ ∀ t, ∃ tm' es, ep t = (Normal tm', es) ∧ game tm' = game t).
  { eexists; split; [reflexivity|]. intros t.
    destruct (executePhase_returns d t) as (tm1 & es & E1 & E2 & _). eauto. }
  destruct action; cbn [handleAction].
  - apply sameRoster_refl.
  - apply sameRoster_refl.
  - unfold after, reading. destruct (decide _); [apply sameRoster_refl|].
    destruct (selectedLieutenant tm) as [l|]; [|apply sameRoster_refl].
    destruct (selectedNavigator tm) as [n'|]; [|apply sameRoster_refl].
    destruct (_ || _); [apply sameRoster_refl|].
    destruct (decide _); [apply sameRoster_refl|].
    destruct HE as (ep & <- & HE). run_method. cbn.
    destruct (lastMutinySucceeded tm); cbn;
      match goal with |- context [ep ?t] =>
        destruct (HE t) as (tm1 & es & E1 & E2); rewrite E1 end;
      cbn; rewrite E2; by repeat split.
  - unfold after, openMutinyVoteModal, reading.
    destruct (getPlayer _ _) as [p|]; [|apply sameRoster_refl].
    destruct (negb _); [apply sameRoster_refl|].
    destruct (decide _); apply sameRoster_refl.
  - unfold after, endTurn, reading.
    destruct (winner (checkWinCondition (game tm)));
      [apply sameRoster_refl|apply startTurn_sameRoster].
  - unfold after, reading. destruct (captainChoiceLocked tm); [apply sameRoster_refl|].
    destruct (decide _); [apply sameRoster_refl|].
    unfold sendNavigatorFinalChoice. run_method. simpl.
    destruct (lieutenantNavigationChoice tm) eqn:E; simpl; rewrite ?E; repeat split; reflexivity.
  - unfold after, reading. destruct (lieutenantChoiceLocked tm); [apply sameRoster_refl|].
    destruct (decide _); [apply sameRoster_refl|].
    unfold sendNavigatorFinalChoice. run_method. simpl.
    destruct (captainNavigationChoice tm) eqn:E; simpl; rewrite ?E; repeat split; reflexivity.
  - unfold after, reading. destruct (navigatorChoiceLocked tm); [apply sameRoster_refl|].
    destruct (decide _); [apply sameRoster_refl|].
    destruct HE as (ep & <- & HE). run_method. cbn.
    match goal with |- context [ep ?t] =>
      destruct (HE t) as (tm1 & es & E1 & E2); rewrite E1 end.
    cbn; rewrite E2; by repeat split.
  - apply sameRoster_refl.
Qed.
End PhaseEntry.

(** ** The manager *)

Section Manager.
Import GameState Roles TurnManager.
Implicit Types (g : GameState) (p q : Player) (u v : string) (ps : list Player).
Implicit Types (gm : GameManager) (s : Session) (tm : TurnManager) (d : Dice).
Implicit Types (channel host user : string).

Lemma startTurn_opening d tm g' :
  currentPhase (game tm) ≠ VOTING →
  nextPhase (game tm) = Normal g' →
  currentPhase g' = NAVIGATION_SELECTION →
  TurnManager.startTurn d tm =
    (Normal (set_game g' tm),
     [ postMessage (Some (managerChannelId tm))
         (NavigationSelectionNotice (currentTurn g') (captain g'));
       postEphemeral (managerChannelId tm) (captain g')
         (SelectTeamForm (userId <$> TurnManager.crewExceptCaptain g')) ]).
Proof.
  intros Hv Hn Hp. unfold TurnManager.startTurn, reading, andThenM, onGame.
  rewrite Hn. rewrite (bool_decide_eq_false_2 _ Hv). cbn [andb skip].
  unfold TurnManager.executePhase, reading. cbn [game set_game]. rewrite Hp.
  unfold TurnManager.navigationSelectionPhase. run_method. reflexivity.
Qed.

Lemma turnManagers_lookup gm channel :
  GameManager.turnManagers gm !! channel = sessions gm !! channel ≫= sessionManager.
Proof. unfold GameManager.turnManagers. by rewrite lookup_omap. Qed.

Lemma getGame_lookup gm channel :
  GameManager.getGame channel gm = sessionGame <$> sessions gm !! channel.
Proof. unfold GameManager.getGame, GameManager.games. by rewrite lookup_fmap. Qed.

(** X22. [createGame] rejects, changing nothing, when the channel already has a
    game.  Otherwise it resolves with a game WAITING in the LOBBY whose
    only player is the host, under the fetched name or its fallback, with
    no turn manager and not yet able to start; a further [createGame] for
    the channel is rejected, and a join by someone else resolves with
    success and gives two players. *)
Theorem createGame_once info channel host gm :
  (is_Some (GameManager.getGame channel gm) →
     GameManager.createGame info channel host gm = Rejected GameAlreadyInChannel gm) ∧
  (GameManager.getGame channel gm = None →
     ∃ gm' g, GameManager.createGame info channel host gm = Resolved () gm' ∧
       GameManager.getGame channel gm' = Some g ∧
       GameManager.turnManagers gm' !! channel = None ∧
       players g = [recruit host (GameManager.hostName info)] ∧
       status g = WAITING ∧ currentPhase g = LOBBY ∧ isHost g host = true ∧
       canStart g = false ∧
       (∀ info' host', GameManager.createGame info' channel host' gm'
                       = Rejected GameAlreadyInChannel gm') ∧
       (∀ user, user ≠ host → ∃ gm'',
          GameManager.joinGame channel user gm' = Resolved true gm'' ∧
          (getPlayerCount <$> GameManager.getGame channel gm'') = Some 2%nat)).
Proof.
  rewrite getGame_lookup. unfold GameManager.createGame. split.
  - intros H. rewrite fmap_is_Some in H. by rewrite decide_True.
  - intros H. apply fmap_None in H. rewrite decide_False by (rewrite H; by intros []).
    assert (Hadd : addPlayer host (GameManager.hostName info) (GameState.new channel host)
                   = (true, set_players [recruit host (GameManager.hostName info)]
                              (GameState.new channel host))).
    { by rewrite addPlayer_fresh. }
    cbv zeta. rewrite Hadd. cbn [snd].
    set (g0 := set_players _ _).
    exists (GameManager.store channel (Lobby g0) gm), g0. split; [reflexivity|].
    rewrite getGame_lookup, turnManagers_lookup. unfold GameManager.store. cbn [sessions].
    rewrite lookup_insert_eq. cbn [fmap option_fmap option_map mbind option_bind sessionGame sessionManager].
    split; [reflexivity|]. split; [done|]. split; [done|]. split; [done|]. split; [done|].
    split; [unfold isHost; by apply bool_decide_eq_true|]. split; [done|]. split.
    + intros info' host'. unfold GameManager.createGame. cbn [sessions].
      rewrite decide_True; [done|]. rewrite ?lookup_insert_eq. eauto.
    + intros user Hne. unfold GameManager.joinGame. cbn [sessions].
      rewrite ?lookup_insert_eq. cbn [sessionGame].
      rewrite addPlayer_fresh; [| done |].
      * eexists. split; [reflexivity|]. rewrite getGame_lookup.
        unfold GameManager.store. cbn [sessions]. by rewrite lookup_insert_eq.
      * unfold getPlayer. subst g0. cbn. by rewrite decide_False.
Qed.

(** X23. What the manager does for one channel leaves the session of every
    other channel as it was: [createGame], [joinGame], [beginGame],
    [handleAction], [handleViewSubmission] and [endGame]. *)
Theorem manager_channels_isolated channel other gm :
  other ≠ channel →
  (∀ info host, sessions (managerOf (GameManager.createGame info channel host gm)) !! other
                = sessions gm !! other) ∧
  (∀ user, sessions (managerOf (GameManager.joinGame channel user gm)) !! other
           = sessions gm !! other) ∧
  (∀ rand r d host, sessions (managerOf (GameManager.beginGame rand r d channel host gm).1.1) !! other
                    = sessions gm !! other) ∧
  (∀ d action user,
     sessions (managerOf (GameManager.handleAction d action (Some channel) user gm).1) !! other
     = sessions gm !! other) ∧
  (∀ d view user,
     sessions (managerOf (GameManager.handleViewSubmission d view (Some channel) user gm).1) !! other
     = sessions gm !! other) ∧
  sessions (GameManager.endGame channel gm) !! other = sessions gm !! other.
Proof.
  intros Hne.
  assert (Hstore : ∀ s gm', sessions gm' = sessions gm →
            sessions (GameManager.store channel s gm') !! other = sessions gm !! other).
  { intros s gm' E. unfold GameManager.store. simpl. rewrite lookup_insert_ne by done.
    by rewrite E. }
  assert (Hroute : ∀ m, sessions (managerOf (GameManager.route m (Some channel) gm).1) !! other
                        = sessions gm !! other).
  { intros m. unfold GameManager.route.
    destruct (sessions gm !! channel) as [[g|tm]|]; try done.
    destruct (m tm) as [[tm'|tm'] es]; simpl; by rewrite lookup_insert_ne. }
  split; [|split; [|split; [|split; [|split]]]].
  - intros info host. unfold GameManager.createGame. destruct (decide _); [done|].
    by apply Hstore.
  - intros user. unfold GameManager.joinGame.
    destruct (sessions gm !! channel) as [s|]; [|done].
    destruct (addPlayer _ _ _) as [b g]. by apply Hstore.
  - intros rand r d host. unfold GameManager.beginGame.
    destruct (sessions gm !! channel) as [s|]; [|done].
    destruct (negb (isHost _ _)); [done|]. destruct (negb (canStart _)); [done|].
    destruct (start _ _ _) as [g1|g1]; [|by apply Hstore].
    destruct (TurnManager.startTurn _ _) as [[tm|tm] es]; by apply Hstore.
  - intros d action user. apply Hroute.
  - intros d view user. apply Hroute.
  - unfold GameManager.endGame. simpl. by rewrite lookup_delete_ne.
Qed.

(** Ending the game of one channel does not touch another channel. *)
Lemma manager_channels_isolated_witness :
  sessions (GameManager.endGame "channel" Sample.lobby) !! "other"%string
  = sessions Sample.lobby !! "other"%string.
Proof.
  assert (H : "other"%string ≠ "channel"%string) by discriminate.
  exact (proj2 (proj2 (proj2 (proj2 (proj2
    (manager_channels_isolated "channel" "other" Sample.lobby H)))))).
Defined.

(** X24. An action or a view submission for a channel without a turn manager,
    and an action whose body names no channel, resolve without any change
    and without sending anything. *)
Theorem events_without_turn_manager channel gm :
  GameManager.turnManagers gm !! channel = None →
  (∀ d action user,
     GameManager.handleAction d action (Some channel) user gm = (Resolved () gm, [])) ∧
  (∀ d view user,
     GameManager.handleViewSubmission d view (Some channel) user gm = (Resolved () gm, [])) ∧
  (∀ d action user, GameManager.handleAction d action None user gm = (Resolved () gm, [])).
Proof.
  rewrite turnManagers_lookup. intros H.
  assert (Hroute : ∀ m, GameManager.route m (Some channel) gm = (Resolved () gm, [])).
  { intros m. unfold GameManager.route.
    destruct (sessions gm !! channel) as [[g|tm]|]; done. }
  split; [|split]; intros; try apply Hroute. done.
Qed.

(** An action that arrives while the game is still in the lobby. *)
Lemma events_without_turn_manager_witness :
  GameManager.handleAction Fixture.dice end_turn (Some "channel"%string) "A" Sample.lobby
  = (Resolved () Sample.lobby, []).
Proof.
  assert (H : GameManager.turnManagers Sample.lobby !! "channel"%string = None)
    by (vm_compute; reflexivity).
  exact (proj1 (events_without_turn_manager "channel" Sample.lobby H)
           Fixture.dice end_turn "A").
Defined.

(** X25. [beginGame] rejects, leaving the manager unchanged and sending nothing,
    when the channel has no game, when the caller is not the host, and when
    the host calls with fewer than five players or with a game that is no
    longer WAITING. *)
Theorem beginGame_rejections rand r d channel host gm :
  (GameManager.getGame channel gm = None →
     GameManager.beginGame rand r d channel host gm = (Rejected NoGameFound gm, [], [])) ∧
  (∀ g, GameManager.getGame channel gm = Some g →
     (hostId g ≠ host →
        GameManager.beginGame rand r d channel host gm = (Rejected OnlyHostCanStart gm, [], [])) ∧
     (hostId g = host → (length (players g) < 5)%nat ∨ status g ≠ WAITING →
        GameManager.beginGame rand r d channel host gm = (Rejected NeedFivePlayers gm, [], []))).
Proof.
  rewrite getGame_lookup. unfold GameManager.beginGame. split.
  - intros H. apply fmap_None in H. by rewrite H.
  - intros g H. apply fmap_Some in H as (s & Hs & ->). rewrite Hs. split.
    + intros Hh. unfold isHost. by rewrite bool_decide_eq_false_2.
    + intros Hh Hc. unfold isHost. rewrite bool_decide_eq_true_2 by done. simpl.
      replace (canStart (sessionGame s)) with false; [done|].
      symmetry. apply not_true_iff_false. rewrite canStart_true.
      intros [Hlen Hst]. destruct Hc; [lia|done].
Qed.

(** X26. When the host begins a game that can start and has a player alive,
    [beginGame] resolves: the channel has a turn manager, which holds the
    game of the channel, IN_PROGRESS, in NAVIGATION_SELECTION, with the turn
    counter one higher, the same identities, a role on every player and an
    alive captain; the role messages are those of that game, and the turn
    opens with the notice to the channel and the selection form to the
    captain.  Beginning again is rejected and a later join resolves without
    success, both leaving the manager unchanged. *)
Theorem beginGame_first_turn rand r d channel host gm g :
  GameManager.getGame channel gm = Some g →
  hostId g = host →
  canStart g = true →
  getAlivePlayers g ≠ [] →
  ∃ gm' tm cap,
    GameManager.beginGame rand r d channel host gm =
      (Resolved () gm', GameManager.sendRoleAssignments (game tm),
       [ postMessage (Some channel)
           (NavigationSelectionNotice (currentTurn g + 1) (Some (userId cap)));
         postEphemeral channel (Some (userId cap))
           (SelectTeamForm (userId <$> TurnManager.crewExceptCaptain (game tm))) ]) ∧
    GameManager.turnManagers gm' !! channel = Some tm ∧
    GameManager.getGame channel gm' = Some (game tm) ∧
    status (game tm) = IN_PROGRESS ∧
    currentPhase (game tm) = NAVIGATION_SELECTION ∧
    currentTurn (game tm) = currentTurn g + 1 ∧
    cap ∈ getAlivePlayers (game tm) ∧ captain (game tm) = Some (userId cap) ∧
    userId <$> players (game tm) = userId <$> players g ∧
    (∀ q, q ∈ players (game tm) → is_Some (role q)) ∧
    (∀ rand' r' d', GameManager.beginGame rand' r' d' channel host gm'
                    = (Rejected NeedFivePlayers gm', [], [])) ∧
    (∀ user, GameManager.joinGame channel user gm' = Resolved false gm').
Proof.
  rewrite getGame_lookup. intros H Hh Hcan Halive.
  apply fmap_Some in H as (s & Hs & ->).
  destruct (start_returns rand r _ Hcan)
    as (g1 & E & Hst & Hph & Ht & Hch & Hhost & Hl & Hn & Hsp & Hids & Hal & Hgu & Hroles & Hcap).
  destruct (Hcap Halive) as (p0 & Hp0 & Hc0).
  set (g2 := set_currentPhase NAVIGATION_SELECTION (set_currentTurn (currentTurn g1 + 1) g1)).
  assert (Hne2 : getAlivePlayers g2 ≠ []).
  { intros Hnil. unfold g2, getAlivePlayers, getAllPlayers in *. simpl in Hnil.
    rewrite Hnil in Hp0. by apply elem_of_nil in Hp0. }
  destruct (rotateCaptain_some_alive g2 Hne2) as (cap & Hcapin & Hrot).
  assert (Hnext : nextPhase g1 = Normal (set_captain (Some (userId cap)) g2)).
  { unfold nextPhase. rewrite Hph. exact Hrot. }
  set (g3 := set_captain (Some (userId cap)) g2) in *.
  set (tm0 := TurnManager.new g1 channel).
  assert (Hv : currentPhase (game tm0) ≠ VOTING) by (cbn; by rewrite Hph).
  assert (Hturn := startTurn_opening d tm0 g3 Hv Hnext eq_refl).
  unfold GameManager.beginGame. rewrite Hs.
  unfold isHost. rewrite bool_decide_eq_true_2 by done. rewrite Hcan, E. cbn [negb].
  fold tm0. rewrite Hturn.
  exists (GameManager.store channel (Running (set_game g3 tm0)) gm), (set_game g3 tm0), cap.
  rewrite getGame_lookup, turnManagers_lookup. unfold GameManager.store.
  cbn [sessions]. rewrite lookup_insert_eq. cbn.
  split; [by rewrite Ht|]. split; [done|]. split; [done|]. split; [done|].
  split; [done|]. split; [by rewrite Ht|]. split; [done|]. split; [done|].
  split; [done|]. split; [done|]. split.
  - intros rand' r' d'. rewrite bool_decide_eq_true_2 by congruence. cbn [negb].
    replace (canStart g3) with false; [done|].
    unfold canStart. cbn. rewrite Hst. cbn. by rewrite andb_false_r.
  - intros user. unfold GameManager.joinGame. cbn [sessions].
    rewrite ?lookup_insert_eq. cbn [sessionGame game set_game].
    rewrite addPlayer_rejected by (right; cbn; by rewrite Hst).
    f_equal. unfold GameManager.store. cbn. by rewrite insert_insert_eq.
Qed.

(** "A" begins the game of five. *)
Lemma beginGame_first_turn_witness :
  ∃ gm' tm,
    (GameManager.beginGame (λ _, 0%nat) 0 Fixture.dice "channel" "A" Sample.lobby).1.1
      = Resolved () gm' ∧
    GameManager.turnManagers gm' !! "channel"%string = Some tm ∧
    currentPhase (game tm) = NAVIGATION_SELECTION ∧ currentTurn (game tm) = 1.
Proof.
  assert (Hg : GameManager.getGame "channel" Sample.lobby = Some Sample.table)
    by (vm_compute; reflexivity).
  assert (Ha : getAlivePlayers Sample.table ≠ []) by (vm_compute; discriminate).
  destruct (beginGame_first_turn (λ _, 0%nat) 0%nat Fixture.dice "channel" "A"
              Sample.lobby Sample.table Hg eq_refl eq_refl Ha)
    as (gm' & tm & cap & E & Htm & _ & _ & Hph & Ht & _).
  exists gm', tm. rewrite E. split; [reflexivity|]. split; [exact Htm|].
  split; [exact Hph | exact Ht].
Defined.

(** X27. [sendRoleAssignments] posts one role message per player, in join order,
    and then the pirate roster to each pirate: the rosters go to pirates
    only and list exactly the pirates; a role message names the cult leader
    to a cultist only; and every role message carries the role of its
    recipient. *)
Theorem role_notices g :
  let dms := GameManager.sendRoleAssignments g in
  let pirates := filter (λ p, role p = Some PIRATE) (players g) in
  length dms = (length (players g) + length pirates)%nat ∧
  take (length (players g)) dms
    = (λ p, (userId p, GameManager.getRoleMessage p g)) <$> players g ∧
  (∀ u roster, (u, PirateRoster roster) ∈ dms ↔
     roster = userId <$> pirates ∧ ∃ p, p ∈ players g ∧ role p = Some PIRATE ∧ userId p = u) ∧
  (∀ u r leader, (u, RoleMessage r (Some leader)) ∈ dms →
     r = Some CULTIST ∧ cultLeader g = Some leader ∧
     ∃ p, p ∈ players g ∧ userId p = u ∧ role p = Some CULTIST) ∧
  (∀ u r leader, (u, RoleMessage r leader) ∈ dms →
     ∃ p, p ∈ players g ∧ userId p = u ∧ role p = r).
Proof.
  intros dms pirates. subst dms. unfold GameManager.sendRoleAssignments, getAllPlayers.
  fold pirates.
  set (own := (λ p, (userId p, GameManager.getRoleMessage p g)) <$> players g).
  set (rosters := if decide (0 < length pirates)%nat
                  then (λ p, (userId p, PirateRoster (userId <$> pirates))) <$> pirates
                  else []).
  assert (Hown : length own = length (players g)) by (subst own; by rewrite length_fmap).
  assert (Hros : rosters = (λ p, (userId p, PirateRoster (userId <$> pirates))) <$> pirates).
  { subst rosters. destruct (decide _) as [|Hz]; [done|].
    destruct pirates; [done | simpl in Hz; lia]. }
  assert (Hmsg : ∀ u r leader, (u, RoleMessage r leader) ∈ own ++ rosters →
            ∃ p, p ∈ players g ∧ userId p = u ∧ GameManager.getRoleMessage p g = RoleMessage r leader).
  { intros u r leader Hin. apply elem_of_app in Hin as [Hin|Hin].
    - subst own. apply list_elem_of_fmap in Hin as (p & Heq & Hp). simplify_eq. eauto.
    - rewrite Hros in Hin. apply list_elem_of_fmap in Hin as (p & Heq & Hp). simplify_eq. }
  split; [|split; [|split; [|split]]].
  - rewrite length_app, Hown, Hros, length_fmap. done.
  - rewrite <- Hown. by rewrite take_app_length.
  - intros u roster. rewrite elem_of_app. split.
    + intros [Hin|Hin].
      * subst own. apply list_elem_of_fmap in Hin as (p & Heq & Hp).
        unfold GameManager.getRoleMessage in Heq. destruct (role p) as [[]|]; simplify_eq.
      * rewrite Hros in Hin. apply list_elem_of_fmap in Hin as (p & Heq & Hp). simplify_eq.
        split; [done|]. apply list_elem_of_filter in Hp as [Hr Hp]. eauto.
    + intros (-> & p & Hp & Hr & <-). right. rewrite Hros.
      apply list_elem_of_fmap. exists p. split; [done|]. by apply list_elem_of_filter.
  - intros u r leader Hin. destruct (Hmsg _ _ _ Hin) as (p & Hp & Hu & Hm).
    unfold GameManager.getRoleMessage in Hm.
    destruct (role p) as [[]|] eqn:Hr; simplify_eq. eauto 10.
  - intros u r leader Hin. destruct (Hmsg _ _ _ Hin) as (p & Hp & Hu & Hm).
    exists p. split; [done|]. split; [done|].
    unfold GameManager.getRoleMessage in Hm.
    destruct (role p) as [[]|] eqn:Hr; by simplify_eq.
Qed.

(** X28. After [endGame] the channel has neither game nor turn manager: joining
    and beginning are rejected for lack of a game, actions are dropped, a
    new game can be created, and a second [endGame] changes nothing. *)
Theorem endGame_forgets channel gm :
  let gm' := GameManager.endGame channel gm in
  GameManager.getGame channel gm' = None ∧
  GameManager.turnManagers gm' !! channel = None ∧
  (∀ user, GameManager.joinGame channel user gm' = Rejected NoGameFound gm') ∧
  (∀ rand r d host,
     GameManager.beginGame rand r d channel host gm' = (Rejected NoGameFound gm', [], [])) ∧
  (∀ d action user,
     GameManager.handleAction d action (Some channel) user gm' = (Resolved () gm', [])) ∧
  (∀ info host, ∃ gm'', GameManager.createGame info channel host gm' = Resolved () gm'') ∧
  GameManager.endGame channel gm' = gm'.
Proof.
  intros gm'. subst gm'.
  assert (Hl : sessions (GameManager.endGame channel gm) !! channel = None)
    by (unfold GameManager.endGame; simpl; apply lookup_delete_eq).
  rewrite getGame_lookup, turnManagers_lookup, Hl.
  split; [done|]. split; [done|]. split; [|split; [|split; [|split]]].
  - intros user. unfold GameManager.joinGame. by rewrite Hl.
  - intros. unfold GameManager.beginGame. by rewrite Hl.
  - intros. unfold GameManager.handleAction, GameManager.route. by rewrite Hl.
  - intros. unfold GameManager.createGame. rewrite decide_False; [eauto|].
    rewrite Hl. by intros [].
  - unfold GameManager.endGame. simpl. by rewrite delete_delete_eq.
Qed.
End Manager.
